(** * orchest-api [app/utils.py]: status transition guard and OrchestSettings

    A shallow embedding of two parts of
    [services/orchest-api/app/app/utils.py]:

    - [update_status_db], the conditional status update that refuses to
      touch an entity once it has reached an end state, on a plain table
      and on a database given by its casts, its comparisons and the
      statements it refuses;
    - the class [OrchestSettings]: the table [_config_values], the
      validator [_validate_dict], the three-layer [ChainMap] built by
      [__init__], [update], [set], [save] and
      [_changes_require_restart].

    Python dictionaries are finite maps ([gmap]) keyed by strings; the
    table [_config_values], whose iteration order matters, is an
    association list.  Code that can raise returns a [result]. *)

From Stdlib Require Import ZArith String Ascii List Bool.
From stdpp Require Import gmap strings list fin_maps.

Local Open Scope string_scope.
Local Open Scope nat_scope.

(** ** Exceptions and results *)

(** The Python exceptions that the embedded code raises, with the text
    the interpreter or the source attaches to them. *)
Inductive exn : Type :=
| KeyError (key : string)
| TypeError (msg : string)
| ValueError (msg : string)
| AttributeError (attr : string)
| CorruptedFileError (msg : string).

Inductive result (A : Type) : Type :=
| Ok (a : A)
| Raise (e : exn).

Arguments Ok {A} a.
Arguments Raise {A} e.

#[global] Instance result_ret : MRet result := λ A a, Ok a.

#[global] Instance result_bind : MBind result := λ A B k r,
  match r with
  | Ok a => k a
  | Raise e => Raise e
  end.

Definition is_ok {A : Type} (r : result A) : bool :=
  match r with Ok _ => true | Raise _ => false end.

(** ** The status transition guard *)

Module Status.

Section Guard.

(** [datetime.datetime] and [datetime.fromisoformat] belong to the Python
    library, not to this repository: the type of time stamps and the
    parser are parameters.  [None] stands for the [ValueError] the parser
    raises on a string it rejects. *)
Context {datetime : Type} `{!EqDecision datetime}.
Variable fromisoformat : string → option datetime.

(** A value held in a column of a row, or handed to [Query.update]. *)
Inductive dbval : Type :=
| DNull
| DStr (s : string)
| DTime (t : datetime).

#[global] Instance dbval_eq_dec : EqDecision dbval.
Proof. solve_decision. Defined.

(** A row of [model] holds the value of each column; a table is the list
    of its rows. *)
Local Abbreviation row := (gmap string dbval).

(** Lines 61-66.  [status_update] is a [Dict[str, str]]; the branch on
    ["status"] replaces one time stamp by the parsed [datetime].
    ["ABORTED"] is in neither branch: such an update goes on as it came.
    The caller's dictionary is updated in place; the updated dictionary
    is the value returned here. *)
Definition parse_times (data : gmap string string) : result (gmap string dbval) :=
  match data !! "status" with
  | None => Raise (KeyError "status")
  | Some status =>
      if bool_decide (status = "STARTED") then
        match data !! "started_time" with
        | None => Raise (KeyError "started_time")
        | Some s =>
            match fromisoformat s with
            | None => Raise (ValueError ("Invalid isoformat string: " ++ s))
            | Some t => Ok (<["started_time" := DTime t]> (DStr <$> data))
            end
        end
      else if bool_decide (status ∈ ["SUCCESS"; "FAILURE"]) then
        match data !! "finished_time" with
        | None => Raise (KeyError "finished_time")
        | Some s =>
            match fromisoformat s with
            | None => Raise (ValueError ("Invalid isoformat string: " ++ s))
            | Some t => Ok (<["finished_time" := DTime t]> (DStr <$> data))
            end
        end
      else Ok (DStr <$> data)
  end.

(** [Query.filter_by] with the keyword arguments [filter_by] on a table
    of strings: every named column holds the given string.  A database
    casts the string to the type of the column before it compares, and
    SQLAlchemy raises for a name that is no column; [filter_by_in] below
    is the filter on such a database. *)
Definition filter_by (flt : gmap string string) (r : row) : bool :=
  bool_decide (map_Forall (λ c v, r !! c = Some (DStr v)) flt).

(** [model.status.in_(statuses)]. *)
Definition status_in (statuses : list string) (r : row) : bool :=
  match r !! "status" with
  | Some (DStr s) => bool_decide (s ∈ statuses)
  | _ => false
  end.

(** The criterion of lines 69-77. *)
Definition selected (flt : gmap string string) (r : row) : bool :=
  filter_by flt r && status_in ["PENDING"; "STARTED"] r.

(** [Query.update(data)] once the statement runs: it sets the columns
    of [data] in every selected row and answers with the number of rows
    it matched.  [data] holds the values as the columns store them; what
    a database makes of the values it is handed, and the statements it
    refuses, are the matter of [update_status_db_in] below. *)
Definition query_update (sel : row → bool) (data : gmap string dbval)
    (table : list row) : nat * list row :=
  (length (filter (λ r, sel r = true) table),
   (λ r, if sel r then data ∪ r else r) <$> table).

(** [update_status_db], lines 41-92, with the table passed in and out:
    the second component is the table after the call.  The table is the
    plain one of [filter_by]: it keeps the values of [data] as they are
    and refuses no statement, so that the only exceptions are those of
    lines 63-66.  [update_status_db_in] is the call on any database, and
    [update_status_db_in_plain] relates the two. *)
Definition update_status_db (status_update : gmap string string)
    (table : list row) (flt : gmap string string) : result bool * list row :=
  match parse_times status_update with
  | Raise e => (Raise e, table)
  | Ok data =>
      let '(res, table') := query_update (selected flt) data table in
      (Ok (negb (res =? 0)%nat), table')
  end.


(** *** Two callers at once

    A call of [update_status_db] does two things: it parses the time
    stamp, which touches nothing shared, and it sends one UPDATE
    statement, which the database runs as a whole.  [call] is the state
    of one caller, [call_step] its next action on the table, and [step]
    lets either of two callers move. *)
Inductive call : Type :=
| Called (status_update : gmap string string) (flt : gmap string string)
| Parsed (data : gmap string dbval) (flt : gmap string string)
| Returned (b : bool)
| Failed (e : exn).

Definition call_step (c : call) (table : list row) : option (call * list row) :=
  match c with
  | Called status_update flt =>
      match parse_times status_update with
      | Raise e => Some (Failed e, table)
      | Ok data => Some (Parsed data flt, table)
      end
  | Parsed data flt =>
      let '(res, table') := query_update (selected flt) data table in
      Some (Returned (negb (res =? 0)%nat), table')
  | Returned _ | Failed _ => None
  end.

Inductive step : relation (call * call * list row) :=
| step_left c1 c1' c2 table table' :
    call_step c1 table = Some (c1', table') →
    step (c1, c2, table) (c1', c2, table')
| step_right c1 c2 c2' table table' :
    call_step c2 table = Some (c2', table') →
    step (c1, c2, table) (c1, c2', table').


End Guard.

Arguments dbval : clear implicits.
Arguments call : clear implicits.

(** *** The database behind the query

    [filter_by] and [query_update] describe a table at its plainest: it
    compares the strings of the filter with the strings it holds, keeps
    every value as it is handed over and refuses nothing.  SQLAlchemy
    and the database behind [model] belong to neither this file nor this
    repository, and they do more:

    - a column casts the value it is given, in a filter as in an update:
      a time column handed the string of a time stamp holds, and is
      compared with, the time stamp;
    - [Query.filter_by] and [Query.update] raise [InvalidRequestError]
      for a name that is no column of [model], and the database raises
      [DataError] for a value that a column cannot cast; the statement
      then changes no row.

    A [database] gathers these behaviours as parameters.  [compares c v x]
    tells whether column [c], holding [x], equals the string [v] of a
    filter; [stores c v] is what column [c] holds after it was handed
    [v]; [refuses flt data table] is the exception, of the type [E] that
    belongs to the database, with which the statement built from the
    filter [flt] and the values [data] is refused on [table], or [None]
    when the statement runs. *)
Record database (datetime E : Type) : Type := mk_database {
  compares : string → string → dbval datetime → bool;
  stores : string → dbval datetime → dbval datetime;
  refuses : gmap string string → gmap string (dbval datetime)
            → list (gmap string (dbval datetime)) → option E
}.

Arguments mk_database {datetime E} compares stores refuses.
Arguments compares {datetime E} d c v x.
Arguments stores {datetime E} d c v.
Arguments refuses {datetime E} d flt data table.

(** What a call of [update_status_db] comes to: the value returned, an
    exception raised by lines 63-66, or an exception raised by the
    query of lines 68-90. *)
Inductive reply (E : Type) : Type :=
| Reply (b : bool)
| Raised (e : exn)
| Refused (x : E).

Arguments Reply {E} b.
Arguments Raised {E} e.
Arguments Refused {E} x.

Definition is_reply {E : Type} (a : reply E) : bool :=
  match a with Reply _ => true | Raised _ | Refused _ => false end.

Section Database.

Context {datetime : Type} `{!EqDecision datetime} {E : Type}.
Variable fromisoformat : string → option datetime.
Variable db : database datetime E.

Local Abbreviation row := (gmap string (dbval datetime)).

(** [Query.filter_by] with the keyword arguments [filter_by], as the
    database evaluates it: every named column compares equal to the
    given string. *)
Definition filter_by_in (flt : gmap string string) (r : row) : bool :=
  bool_decide (map_Forall (λ c v, compares db c v <$> r !! c = Some true) flt).

(** The criterion of lines 69-77.  The column [status] maps to a string,
    as the docstring assumes. *)
Definition selected_in (flt : gmap string string) (r : row) : bool :=
  filter_by_in flt r && status_in ["PENDING"; "STARTED"] r.

(** The values of [data] as their columns hold them. *)
Definition written (data : gmap string (dbval datetime)) : gmap string (dbval datetime) :=
  map_imap (λ c v, Some (stores db c v)) data.

(** [update_status_db], lines 41-92, on a database: lines 61-66 run
    first, and an exception there sends no statement; a statement that
    is refused changes no row; one that runs sets the columns of [data],
    as the database stores them, in every selected row, and line 92
    turns the number of rows matched into a boolean. *)
Definition update_status_db_in (status_update : gmap string string)
    (table : list row) (flt : gmap string string) : reply E * list row :=
  match parse_times fromisoformat status_update with
  | Raise e => (Raised e, table)
  | Ok data =>
      match refuses db flt data table with
      | Some x => (Refused x, table)
      | None =>
          let '(res, table') :=
            query_update (selected_in flt) (written data) table in
          (Reply (negb (res =? 0)%nat), table')
      end
  end.

(** The table after a list of calls, each an update and a filter,
    whether they raise or not. *)
Definition run_updates_in (calls : list (gmap string string * gmap string string))
    (table : list row) : list row :=
  foldl (λ t c, (update_status_db_in c.1 t c.2).2) table calls.

End Database.

(** The plain table of [filter_by] and [query_update] as a database: it
    compares and stores the values as they are and refuses nothing. *)
Definition plain_database {datetime : Type} `{!EqDecision datetime} :
    database datetime Empty_set :=
  mk_database (λ _ v x, bool_decide (x = DStr v)) (λ _ v, v) (λ _ _ _, None).

(** *** A parser to run the examples with

    [fromisoformat_seconds] reads the form [YYYY-MM-DDTHH:MM:SS], which
    [datetime.isoformat] writes for a time stamp without microseconds
    and without a time zone, and rejects everything else.  The library's
    parser accepts more forms; the theorems below hold for any parser,
    and this one only instantiates them. *)
Record naive_datetime : Type := mk_datetime {
  year : nat; month : nat; day : nat;
  hour : nat; minute : nat; second : nat
}.

#[global] Instance naive_datetime_eq_dec : EqDecision naive_datetime.
Proof. solve_decision. Defined.

Definition digit (a : ascii) : option nat :=
  let n := nat_of_ascii a in
  if ((48 <=? n) && (n <=? 57))%nat then Some (n - 48) else None.

Fixpoint number (digits : list ascii) (acc : nat) : option nat :=
  match digits with
  | [] => Some acc
  | a :: rest => d ← digit a; number rest (10 * acc + d)
  end.

Definition days_in_month (y m : nat) : nat :=
  if bool_decide (m ∈ [4; 6; 9; 11]) then 30
  else if (m =? 2)%nat then
    if (((y mod 4 =? 0) && negb (y mod 100 =? 0)) || (y mod 400 =? 0))%nat
    then 29 else 28
  else 31.

Definition fromisoformat_seconds (s : string) : option naive_datetime :=
  match list_ascii_of_string s with
  | [y1; y2; y3; y4; a; m1; m2; b; d1; d2; t; h1; h2; c; n1; n2; d; s1; s2] =>
      if bool_decide ([a; b; t; c; d] = list_ascii_of_string "--T::") then
        y ← number [y1; y2; y3; y4] 0;
        m ← number [m1; m2] 0;
        dd ← number [d1; d2] 0;
        h ← number [h1; h2] 0;
        n ← number [n1; n2] 0;
        ss ← number [s1; s2] 0;
        if ((1 <=? y) && (1 <=? m) && (m <=? 12) && (1 <=? dd)
            && (dd <=? days_in_month y m) && (h <? 24) && (n <? 60)
            && (ss <? 60))%nat
        then Some (mk_datetime y m dd h n ss) else None
      else None
  | _ => None
  end.

Example fromisoformat_seconds_reads :
  fromisoformat_seconds "2022-03-01T10:15:00" = Some (mk_datetime 2022 3 1 10 15 0).
Proof. reflexivity. Qed.

Example fromisoformat_seconds_rejects :
  fromisoformat_seconds "2022-02-30T10:15:00" = None
  ∧ fromisoformat_seconds "yesterday" = None.
Proof. split; reflexivity. Qed.

(** *** Sample rows and updates *)

Definition run_filter : gmap string string := {[ "uuid" := "run-1" ]}.

Definition run_pending : gmap string (dbval naive_datetime) :=
  {[ "uuid" := DStr "run-1"; "status" := DStr "PENDING";
     "started_time" := DNull; "finished_time" := DNull ]}.

Definition run_done : gmap string (dbval naive_datetime) :=
  {[ "uuid" := DStr "run-1"; "status" := DStr "SUCCESS";
     "started_time" := DTime (mk_datetime 2022 3 1 10 0 0);
     "finished_time" := DTime (mk_datetime 2022 3 1 10 15 0) ]}.

Definition other_run : gmap string (dbval naive_datetime) :=
  {[ "uuid" := DStr "run-2"; "status" := DStr "STARTED";
     "started_time" := DTime (mk_datetime 2022 3 1 9 0 0);
     "finished_time" := DNull ]}.

Definition report_started : gmap string string :=
  {[ "status" := "STARTED"; "started_time" := "2022-03-01T10:00:00" ]}.

Definition report_success : gmap string string :=
  {[ "status" := "SUCCESS"; "finished_time" := "2022-03-01T10:15:00" ]}.

Definition report_failure : gmap string string :=
  {[ "status" := "FAILURE"; "finished_time" := "2022-03-01T10:15:30" ]}.

Definition report_aborted : gmap string string :=
  {[ "status" := "ABORTED"; "finished_time" := "2022-03-01T10:15:00" ]}.

(** *** A database to run the examples with

    [sample_database] has three columns of text and two of time stamps.
    A time column casts a string with [fromisoformat_seconds], in an
    update and in a filter, and keeps a time stamp as it is; a name that
    is no column gives [InvalidRequestError] and a string that a time
    column cannot cast gives [DataError].  The theorems below hold for
    any database, and this one only instantiates them. *)
Inductive sqlalchemy_exn : Type :=
| InvalidRequestError
| DataError.

Definition text_columns : list string := ["uuid"; "run_uuid"; "step_uuid"; "status"].

Definition time_columns : list string := ["started_time"; "finished_time"].

Definition is_column (c : string) : bool :=
  bool_decide (c ∈ text_columns ++ time_columns)%list.

Definition castable (c : string) (v : dbval naive_datetime) : bool :=
  if bool_decide (c ∈ time_columns) then
    match v with
    | DStr s => bool_decide (is_Some (fromisoformat_seconds s))
    | DNull | DTime _ => true
    end
  else
    match v with
    | DStr _ | DNull => true
    | DTime _ => false
    end.

Definition sample_compares (c v : string) (x : dbval naive_datetime) : bool :=
  if bool_decide (c ∈ time_columns) then
    match fromisoformat_seconds v, x with
    | Some t, DTime t' => bool_decide (t = t')
    | _, _ => false
    end
  else bool_decide (x = DStr v).

Definition sample_stores (c : string) (v : dbval naive_datetime) : dbval naive_datetime :=
  if bool_decide (c ∈ time_columns) then
    match v with
    | DStr s =>
        match fromisoformat_seconds s with
        | Some t => DTime t
        | None => v
        end
    | DNull | DTime _ => v
    end
  else v.

Definition sample_refuses (flt : gmap string string)
    (data : gmap string (dbval naive_datetime))
    (table : list (gmap string (dbval naive_datetime))) : option sqlalchemy_exn :=
  if negb (bool_decide (map_Forall (λ c _, is_column c = true) flt)) then
    Some InvalidRequestError
  else if negb (bool_decide (map_Forall (λ c _, is_column c = true) data)) then
    Some InvalidRequestError
  else if negb (bool_decide (map_Forall (λ c v, castable c (DStr v) = true) flt)) then
    Some DataError
  else if negb (bool_decide (map_Forall (λ c v, castable c v = true) data)) then
    Some DataError
  else None.

Definition sample_database : database naive_datetime sqlalchemy_exn :=
  mk_database sample_compares sample_stores sample_refuses.



(** A filter that names the run and not the step. *)
Definition steps_filter : gmap string string := {[ "run_uuid" := "run-1" ]}.

Definition report_aborted_only : gmap string string := {[ "status" := "ABORTED" ]}.

Definition report_success_only : gmap string string := {[ "status" := "SUCCESS" ]}.

(** *** Properties of the guard *)

Section GuardProps.

Context {datetime : Type} `{!EqDecision datetime}.
Variable fromisoformat : string → option datetime.
Context {E : Type} (db : database datetime E).

Local Abbreviation row := (gmap string (dbval datetime)).

Implicit Types (r e : row) (table : list (row)).
Implicit Types (flt : gmap string string) (data : gmap string (dbval datetime)).

Lemma query_update_unselected (sel : row → bool) data table :
  Forall (λ r, sel r = false) table → query_update sel data table = (0, table).
Proof.
  unfold query_update. induction 1 as [| r table Hr _ IH]; [done |].
  injection IH as IHn IHt.
  rewrite filter_cons, fmap_cons, Hr, IHt.
  destruct (decide (false = true)); [discriminate |]. by rewrite IHn.
Qed.

Lemma query_update_lookup (sel : row → bool) data table i r :
  table !! i = Some r →
  (query_update sel data table).2 !! i = Some (if sel r then data ∪ r else r).
Proof. intros Hi. unfold query_update; simpl. by rewrite list_lookup_fmap, Hi. Qed.

Lemma query_update_matched (sel : row → bool) data table i r :
  table !! i = Some r → sel r = true → (query_update sel data table).1 ≠ 0.
Proof.
  intros Hi Hsel. unfold query_update; simpl.
  assert (r ∈ filter (λ r, sel r = true) table) as Hin.
  { apply list_elem_of_filter. split; [done |]. by eapply list_elem_of_lookup_2. }
  destruct (filter _ table); [by apply elem_of_nil in Hin | done].
Qed.

(** Whatever the update and the filter, and whether or not the call
    raises, a row that is not PENDING or STARTED comes out as it went
    in. *)
Lemma update_status_db_keeps_unselected status_update table flt i r :
  table !! i = Some r →
  status_in ["PENDING"; "STARTED"] r = false →
  (update_status_db fromisoformat status_update table flt).2 !! i = Some r.
Proof.
  intros Hi Hst. unfold update_status_db.
  destruct (parse_times _ _) as [data | x]; [| done].
  pose proof (query_update_lookup (selected flt) data table i r Hi) as Hq.
  destruct (query_update _ _ _) as [res table']; simpl in *.
  rewrite Hq. unfold selected. by rewrite Hst, andb_false_r.
Qed.


(** The same on any database: the status is part of the criterion
    whatever the filter matches. *)
Lemma update_status_db_in_keeps_unselected status_update table flt i r :
  table !! i = Some r →
  status_in ["PENDING"; "STARTED"] r = false →
  (update_status_db_in fromisoformat db status_update table flt).2 !! i = Some r.
Proof.
  intros Hi Hst. unfold update_status_db_in.
  destruct (parse_times _ _) as [data | x]; [| done].
  destruct (refuses db flt data table) as [x |]; [done |].
  pose proof (query_update_lookup (selected_in db flt) (written db data)
                table i r Hi) as Hq.
  destruct (query_update _ _ _) as [res table']; simpl in *.
  rewrite Hq. unfold selected_in. by rewrite Hst, andb_false_r.
Qed.


(** The fields of a parsed update in terms of the update received. *)
Lemma parse_times_inv status_update data :
  parse_times fromisoformat status_update = Ok data →
  ∃ status, status_update !! "status" = Some status
  ∧ (status = "STARTED" →
       ∃ s t, status_update !! "started_time" = Some s
              ∧ fromisoformat s = Some t
              ∧ data = <["started_time" := DTime t]> (DStr <$> status_update))
  ∧ (status = "SUCCESS" ∨ status = "FAILURE" →
       ∃ s t, status_update !! "finished_time" = Some s
              ∧ fromisoformat s = Some t
              ∧ data = <["finished_time" := DTime t]> (DStr <$> status_update))
  ∧ (status ∉ ["STARTED"; "SUCCESS"; "FAILURE"] → data = DStr <$> status_update).
Proof.
  unfold parse_times. intros H.
  destruct (status_update !! "status") as [status |] eqn:Hst; [| discriminate].
  exists status. split; [done |].
  case_bool_decide as Hstarted.
  - subst status.
    destruct (status_update !! "started_time") as [s |]; [| discriminate].
    destruct (fromisoformat s) as [t |] eqn:Ht; [| discriminate].
    injection H as <-. split; [by eauto |]. split.
    + intros [? | ?]; discriminate.
    + intros Hn. exfalso. apply Hn. apply elem_of_cons; by left.
  - case_bool_decide as Hfin.
    + destruct (status_update !! "finished_time") as [s |]; [| discriminate].
      destruct (fromisoformat s) as [t |] eqn:Ht; [| discriminate].
      injection H as <-. split; [done |]. split; [by eauto |].
      intros Hn. exfalso. apply Hn. apply elem_of_cons; by right.
    + injection H as <-. split; [done |]. split; [| done].
      intros Hor. exfalso. apply Hfin.
      destruct Hor as [-> | ->]; [by left | right; by left].
Qed.

Lemma parse_times_status status_update data status :
  parse_times fromisoformat status_update = Ok data →
  status_update !! "status" = Some status →
  data !! "status" = Some (DStr status).
Proof.
  intros Hp Hst.
  destruct (parse_times_inv _ _ Hp) as (st & Hst' & Hstarted & Hfin & Hother).
  assert (st = status) as -> by congruence.
  assert ((DStr <$> status_update : gmap string (dbval datetime)) !! "status"
          = Some (DStr status)) as Hl by (by rewrite lookup_fmap, Hst).
  destruct (decide (status = "STARTED")) as [Hs | Hs].
  { destruct (Hstarted Hs) as (? & ? & _ & _ & ->). by rewrite lookup_insert_ne. }
  destruct (decide (status = "SUCCESS" ∨ status = "FAILURE")) as [Hf | Hf].
  { destruct (Hfin Hf) as (? & ? & _ & _ & ->). by rewrite lookup_insert_ne. }
  rewrite Hother; [done |].
  intros Hin. repeat (apply elem_of_cons in Hin as [Hin | Hin]); try tauto.
  by apply elem_of_nil in Hin.
Qed.

Lemma lookup_written data c :
  written db data !! c = stores db c <$> data !! c.
Proof. unfold written. rewrite map_lookup_imap. by destruct (data !! c). Qed.

(** C4, as the code has it.  Take an entity [e] that is PENDING or
    STARTED, a filter that matches it, and a [status_update] that parses
    into the fields [data], in a statement that the database accepts.
    The call returns [True] and the entity becomes [written db data ∪ e]:
    every column named in [data] holds what the database stores for the
    value handed to it, and the other columns keep their values.  For
    the status STARTED [data] carries the parsed [started_time], for
    SUCCESS and FAILURE the parsed [finished_time]; for every other
    status, ABORTED among them, lines 63-66 parse nothing and ask for no
    field, and [data] is the update as received. *)
Theorem nonterminal_entity_transition status_update table flt i e data :
  table !! i = Some e →
  status_in ["PENDING"; "STARTED"] e = true →
  filter_by_in db flt e = true →
  parse_times fromisoformat status_update = Ok data →
  refuses db flt data table = None →
  let out := update_status_db_in fromisoformat db status_update table flt in
  let e' := written db data ∪ e in
  out.1 = Reply true
  ∧ out.2 !! i = Some e'
  ∧ (∀ c v, data !! c = Some v → e' !! c = Some (stores db c v))
  ∧ (∀ c, data !! c = None → e' !! c = e !! c)
  ∧ (status_update !! "status" = Some "STARTED" →
       ∃ s t, status_update !! "started_time" = Some s
              ∧ fromisoformat s = Some t
              ∧ data = <["started_time" := DTime t]> (DStr <$> status_update))
  ∧ (status_update !! "status" = Some "SUCCESS"
     ∨ status_update !! "status" = Some "FAILURE" →
       ∃ s t, status_update !! "finished_time" = Some s
              ∧ fromisoformat s = Some t
              ∧ data = <["finished_time" := DTime t]> (DStr <$> status_update))
  ∧ (∀ status, status_update !! "status" = Some status →
       status ∉ ["STARTED"; "SUCCESS"; "FAILURE"] →
       data = DStr <$> status_update).
Proof.
  intros Hi Hst Hflt Hp Href out e'. subst out e'.
  assert (selected_in db flt e = true) as Hsel
    by (unfold selected_in; by rewrite Hflt, Hst).
  unfold update_status_db_in. rewrite Hp, Href.
  pose proof (query_update_lookup (selected_in db flt) (written db data)
                table i e Hi) as Hl.
  pose proof (query_update_matched (selected_in db flt) (written db data)
                table i e Hi Hsel) as Hn.
  destruct (query_update _ _ _) as [res table']; simpl in *.
  rewrite Hsel in Hl.
  split. { destruct res; [done | done]. }
  split; [done |].
  split. { intros c v Hc. apply lookup_union_Some_l.
           by rewrite lookup_written, Hc. }
  split. { intros c Hc. apply lookup_union_r. by rewrite lookup_written, Hc. }
  destruct (parse_times_inv _ _ Hp) as (st & Hst' & Hstarted & Hfin & Hother).
  split. { intros H. apply Hstarted. congruence. }
  split. { intros [H | H]; apply Hfin; [left | right]; congruence. }
  intros status H Hn'. apply Hother. congruence.
Qed.

(** **** Two callers *)

(** One caller running alone takes its two steps and ends where
    [update_status_db] ends. *)
Lemma call_step_alone status_update flt table :
  match parse_times fromisoformat status_update with
  | Raise x =>
      call_step fromisoformat (Called status_update flt) table
      = Some (Failed x, table)
      ∧ update_status_db fromisoformat status_update table flt = (Raise x, table)
  | Ok data =>
      call_step fromisoformat (Called status_update flt) table
      = Some (Parsed data flt, table)
      ∧ ∃ b table',
          call_step fromisoformat (Parsed data flt) table
          = Some (Returned b, table')
          ∧ update_status_db fromisoformat status_update table flt = (Ok b, table')
  end.
Proof.
  unfold update_status_db, call_step.
  destruct (parse_times _ _) as [data | x]; [| done].
  split; [done |]. destruct (query_update _ _ _) as [res t']. eauto.
Qed.













(** **** Further properties of the update *)

Lemma query_update_count (sel : row → bool) data table :
  negb ((query_update sel data table).1 =? 0)
  = bool_decide (Exists (λ r, sel r = true) table).
Proof.
  unfold query_update; simpl.
  induction table as [| r table IH]; [done |].
  rewrite filter_cons. destruct (sel r) eqn:Hr.
  - destruct (decide (true = true)); [| done]. simpl.
    symmetry. apply bool_decide_eq_true. by left.
  - destruct (decide (false = true)); [discriminate |]. rewrite IH.
    apply bool_decide_ext. rewrite Exists_cons. split; [tauto |].
    intros [? | ?]; [congruence | done].
Qed.

(** On the plain database the call on a database is the call of
    [update_status_db]. *)
Lemma filter_by_in_plain flt r :
  filter_by_in plain_database flt r = filter_by flt r.
Proof.
  unfold filter_by_in, filter_by. apply bool_decide_ext.
  unfold map_Forall. split; intros H c v Hc; specialize (H c v Hc); simpl in *.
  - destruct (r !! c) as [x |]; [| done]. simpl in H. injection H as H.
    apply bool_decide_eq_true in H. by subst.
  - rewrite H. simpl. by rewrite bool_decide_eq_true_2.
Qed.

Lemma query_update_ext (sel sel' : row → bool) data table :
  (∀ r, sel r = sel' r) →
  query_update sel data table = query_update sel' data table.
Proof.
  intros Hext. unfold query_update.
  induction table as [| r table IH]; [done |].
  injection IH as IHn IHt.
  rewrite !filter_cons, !fmap_cons, IHt, <- (Hext r).
  destruct (decide (sel r = true)); simpl; by rewrite IHn.
Qed.

Lemma update_status_db_in_plain status_update table flt :
  update_status_db_in fromisoformat plain_database status_update table flt
  = (match (update_status_db fromisoformat status_update table flt).1 with
     | Ok b => Reply b
     | Raise x => Raised x
     end,
     (update_status_db fromisoformat status_update table flt).2).
Proof.
  unfold update_status_db_in, update_status_db.
  destruct (parse_times _ _) as [data | x]; [| done].
  assert (written plain_database data = data) as Hw.
  { unfold written; simpl. apply map_imap_Some. }
  assert (query_update (selected_in plain_database flt)
            (written plain_database data) table
          = query_update (selected flt) data table) as Hq.
  { rewrite Hw. apply query_update_ext. intros r.
    unfold selected_in, selected. by rewrite filter_by_in_plain. }
  change (refuses plain_database flt data table) with (@None Empty_set).
  cbv iota. rewrite Hq. by destruct (query_update _ _ _).
Qed.

(** X2.  When the update parses and the database accepts the statement,
    the value returned is [True] exactly when some row of the table
    matches the filter, as the database evaluates it, and is PENDING or
    STARTED. *)
Theorem update_status_db_in_returns status_update table flt data :
  parse_times fromisoformat status_update = Ok data →
  refuses db flt data table = None →
  (update_status_db_in fromisoformat db status_update table flt).1
  = Reply (bool_decide (Exists (λ r, selected_in db flt r = true) table)).
Proof.
  intros Hp Href. unfold update_status_db_in. rewrite Hp, Href.
  pose proof (query_update_count (selected_in db flt) (written db data) table)
    as Hc.
  destruct (query_update _ _ _) as [res table']; simpl in *. by rewrite Hc.
Qed.

(** The table after a list of calls, each an update and a filter,
    whether they raise or not. *)
Definition run_updates (calls : list (gmap string string * gmap string string))
    table : list row :=
  foldl (λ t c, (update_status_db fromisoformat c.1 t c.2).2) table calls.

(** X3.  A row whose status is neither PENDING nor STARTED is the same
    after any list of calls. *)
Theorem end_state_is_final calls table i r :
  table !! i = Some r →
  status_in ["PENDING"; "STARTED"] r = false →
  run_updates calls table !! i = Some r.
Proof.
  unfold run_updates. revert table.
  induction calls as [| [su flt] calls IH]; intros table Hi Hst; [done |].
  simpl. apply IH; [| done]. by apply update_status_db_keeps_unselected.
Qed.

(** The updates that lines 63-66 refuse. *)
Lemma parse_times_raises status_update :
  is_ok (parse_times fromisoformat status_update) = false ↔
    status_update !! "status" = None
    ∨ (status_update !! "status" = Some "STARTED"
       ∧ ∀ s, status_update !! "started_time" = Some s →
              fromisoformat s = None)
    ∨ ((status_update !! "status" = Some "SUCCESS"
        ∨ status_update !! "status" = Some "FAILURE")
       ∧ ∀ s, status_update !! "finished_time" = Some s →
              fromisoformat s = None).
Proof.
  unfold parse_times.
  destruct (status_update !! "status") as [status |];
    [| simpl; split; [by left | done]].
  case_bool_decide as Hstarted.
  - subst status. split.
    + intros Hraise. right; left. split; [done |]. intros s Hs.
      rewrite Hs in Hraise. by destruct (fromisoformat s).
    + intros [Hn | [[_ Hno] | [Hs _]]].
      * discriminate.
      * destruct (status_update !! "started_time") as [s |]; [| done].
        by rewrite (Hno s eq_refl).
      * destruct Hs as [Hs | Hs]; discriminate.
  - case_bool_decide as Hfin.
    + split.
      * intros Hraise. right; right. split.
        { repeat (apply elem_of_cons in Hfin as [-> | Hfin]);
            [by left | by right | by apply elem_of_nil in Hfin]. }
        intros s Hs. rewrite Hs in Hraise. by destruct (fromisoformat s).
      * intros [Hn | [[Hs _] | [_ Hno]]].
        -- discriminate.
        -- by injection Hs as ->.
        -- destruct (status_update !! "finished_time") as [s |]; [| done].
           by rewrite (Hno s eq_refl).
    + split; [done |]. intros [Hn | [[Hs _] | [Hs _]]].
      * discriminate.
      * by injection Hs as ->.
      * exfalso. apply Hfin.
        destruct Hs as [Hs | Hs]; injection Hs as ->;
          rewrite !elem_of_cons; tauto.
Qed.

(** The exception of lines 63-66: the [KeyError] of a key the update
    lacks, or the [ValueError] of a field the parser rejects. *)
Lemma parse_times_exn status_update x :
  parse_times fromisoformat status_update = Raise x →
  (∃ k, x = KeyError k ∧ status_update !! k = None)
  ∨ (∃ k s msg, x = ValueError msg ∧ status_update !! k = Some s
                ∧ fromisoformat s = None).
Proof.
  unfold parse_times.
  destruct (status_update !! "status") as [status |] eqn:Hst;
    [| intros [= <-]; left; by exists "status"].
  case_bool_decide.
  - destruct (status_update !! "started_time") as [s |] eqn:Hs;
      [| intros [= <-]; left; by exists "started_time"].
    destruct (fromisoformat s) eqn:Ht; [discriminate |].
    intros [= <-]. right. exists "started_time", s. eauto.
  - case_bool_decide; [| discriminate].
    destruct (status_update !! "finished_time") as [s |] eqn:Hs;
      [| intros [= <-]; left; by exists "finished_time"].
    destruct (fromisoformat s) eqn:Ht; [discriminate |].
    intros [= <-]. right. exists "finished_time", s. eauto.
Qed.

(** X4.  The call raises the exception of lines 63-66 exactly when the
    update has no status, or has the status STARTED and no
    [started_time] that parses, or has the status SUCCESS or FAILURE and
    no [finished_time] that parses; the exception is then the [KeyError]
    of the missing key or the [ValueError] of the parser.  It raises an
    exception of the database exactly when the update parses and the
    database refuses the statement.  A call that raises has changed
    nothing. *)
Theorem update_status_db_in_raises status_update table flt :
  let out := update_status_db_in fromisoformat db status_update table flt in
  ((∃ x, out.1 = Raised x) ↔
     status_update !! "status" = None
     ∨ (status_update !! "status" = Some "STARTED"
        ∧ ∀ s, status_update !! "started_time" = Some s →
               fromisoformat s = None)
     ∨ ((status_update !! "status" = Some "SUCCESS"
         ∨ status_update !! "status" = Some "FAILURE")
        ∧ ∀ s, status_update !! "finished_time" = Some s →
               fromisoformat s = None))
  ∧ (∀ x, out.1 = Raised x →
       (∃ k, x = KeyError k ∧ status_update !! k = None)
       ∨ (∃ k s msg, x = ValueError msg ∧ status_update !! k = Some s
                     ∧ fromisoformat s = None))
  ∧ (∀ x, out.1 = Refused x ↔
       ∃ data, parse_times fromisoformat status_update = Ok data
               ∧ refuses db flt data table = Some x)
  ∧ (is_reply out.1 = false → out.2 = table).
Proof.
  intros out. subst out.
  pose proof (parse_times_raises status_update) as Hparse.
  pose proof (parse_times_exn status_update) as Hexn.
  unfold update_status_db_in.
  destruct (parse_times _ _) as [data | x]; simpl in Hparse; [| simpl].
  - destruct (refuses db flt data table) as [y |] eqn:Href; [simpl |].
    + split. { rewrite <- Hparse. split; [by intros [? ?] | done]. }
      split; [intros ?; discriminate |].
      split; [| done]. intros z. split.
      * intros [= <-]. by exists data.
      * intros (d & [= <-] & Hd). congruence.
    + destruct (query_update _ _ _) as [res table']; simpl.
      split. { rewrite <- Hparse. split; [by intros [? ?] | done]. }
      split; [intros ?; discriminate |].
      split; [| done]. intros z. split; [discriminate |].
      intros (d & [= <-] & Hd). congruence.
  - split. { rewrite <- Hparse. split; [done | by exists x]. }
    split. { intros y [= <-]. by apply Hexn. }
    split; [| done]. intros z. split; [discriminate |].
    by intros (d & Hd & _).
Qed.

(** A statement that wrote a status outside PENDING and STARTED leaves
    no row for the same filter to select. *)
Lemma end_state_none_selected_in flt data s table :
  written db data !! "status" = Some (DStr s) →
  s ∉ ["PENDING"; "STARTED"] →
  Forall (λ r, selected_in db flt r = false)
    ((query_update (selected_in db flt) (written db data) table).2).
Proof.
  intros Hst Hs. unfold query_update; simpl.
  apply Forall_fmap, Forall_forall. intros r _; simpl.
  destruct (selected_in db flt r) eqn:Hsel; [| done].
  unfold selected_in, status_in.
  rewrite (lookup_union_Some_l (written db data) r _ _ Hst),
    (bool_decide_eq_false_2 _ Hs).
  apply andb_false_r.
Qed.

(** X5.  Take a call whose update parsed, carried a status [s] other
    than PENDING and STARTED, and was accepted by a database that stores
    [s] in the column [status] as it is.  Any further call through the
    same filter leaves the table as that call left it, and returns
    [False] when its update parses and the database accepts its
    statement. *)
Theorem end_state_update_is_final status_update data s table flt again :
  parse_times fromisoformat status_update = Ok data →
  refuses db flt data table = None →
  status_update !! "status" = Some s →
  s ∉ ["PENDING"; "STARTED"] →
  stores db "status" (DStr s) = DStr s →
  let table1 := (update_status_db_in fromisoformat db status_update table flt).2 in
  let out := update_status_db_in fromisoformat db again table1 flt in
  out.2 = table1
  ∧ (∀ data', parse_times fromisoformat again = Ok data' →
       refuses db flt data' table1 = None → out.1 = Reply false).
Proof.
  intros Hp Href Hst Hs Hstore table1 out.
  pose proof (parse_times_status _ _ _ Hp Hst) as Hd.
  assert (written db data !! "status" = Some (DStr s)) as Hw
    by (by rewrite lookup_written, Hd; simpl; rewrite Hstore).
  pose proof (end_state_none_selected_in flt data s table Hw Hs) as Hnone.
  assert (table1 = (query_update (selected_in db flt) (written db data) table).2)
    as Ht1.
  { subst table1. unfold update_status_db_in. rewrite Hp, Href.
    by destruct (query_update _ _ _). }
  rewrite <- Ht1 in Hnone. subst out. unfold update_status_db_in.
  destruct (parse_times fromisoformat again) as [data' | x];
    [| split; [done | discriminate]].
  destruct (refuses db flt data' table1) as [y |] eqn:Hr.
  - split; [done |]. intros d [= <-] Hnot. congruence.
  - rewrite (query_update_unselected _ (written db data') table1 Hnone).
    split; [done |]. by intros ? _ _.
Qed.

(** X23.  On any database, a row whose status is neither PENDING nor
    STARTED is the same after any list of calls, whatever their updates
    and filters, and whether they return or raise. *)
Theorem end_state_is_final_in calls table i r :
  table !! i = Some r →
  status_in ["PENDING"; "STARTED"] r = false →
  run_updates_in fromisoformat db calls table !! i = Some r.
Proof.
  unfold run_updates_in. revert table.
  induction calls as [| [su flt] calls IH]; intros table Hi Hst; [done |].
  simpl. apply IH; [| done]. by apply update_status_db_in_keeps_unselected.
Qed.

End GuardProps.

(** *** The guard on the sample rows *)



(** An update that does not parse raises for an entity in an end state
    as for any other. *)
Example terminal_entity_update_raises :
  update_status_db_in fromisoformat_seconds sample_database
    {[ "status" := "STARTED" ]} [run_done] run_filter
  = (Raised (KeyError "started_time"), [run_done]).
Proof. reflexivity. Qed.

Lemma nonterminal_entity_transition_witness :
  let out := update_status_db_in fromisoformat_seconds sample_database
               report_started [other_run; run_pending] run_filter in
  out.1 = Reply true
  ∧ out.2 !! 1
    = Some {[ "uuid" := DStr "run-1"; "status" := DStr "STARTED";
              "started_time" := DTime (mk_datetime 2022 3 1 10 0 0);
              "finished_time" := DNull ]}.
Proof.
  intros out.
  destruct (nonterminal_entity_transition fromisoformat_seconds sample_database
              report_started [other_run; run_pending] run_filter 1 run_pending
              (<["started_time" := DTime (mk_datetime 2022 3 1 10 0 0)]>
                 (DStr <$> report_started)))
    as (Hret & Hrow & _).
  - reflexivity.
  - reflexivity.
  - reflexivity.
  - reflexivity.
  - reflexivity.
  - split; [exact Hret |]. etrans; [exact Hrow | reflexivity].
Defined.

(** An ABORTED update without a [finished_time] is applied: the call
    returns [True] and the entity is ABORTED with no [finished_time]
    set.  The same update with the status SUCCESS raises [KeyError]. *)
Lemma aborted_sets_no_finished_time :
  update_status_db_in fromisoformat_seconds sample_database
    report_aborted_only [run_pending] run_filter
  = (Reply true,
     [ {[ "uuid" := DStr "run-1"; "status" := DStr "ABORTED";
          "started_time" := DNull; "finished_time" := DNull ]} ])
  ∧ update_status_db_in fromisoformat_seconds sample_database
      report_success_only [run_pending] run_filter
    = (Raised (KeyError "finished_time"), [run_pending]).
Proof. split; reflexivity. Qed.

(** An ABORTED update that carries a [finished_time] hands it to the
    database as the string received; the time column casts it. *)
Example aborted_finished_time_cast_by_database :
  parse_times fromisoformat_seconds report_aborted = Ok (DStr <$> report_aborted)
  ∧ update_status_db_in fromisoformat_seconds sample_database
      report_aborted [run_pending] run_filter
    = (Reply true,
       [ {[ "uuid" := DStr "run-1"; "status" := DStr "ABORTED";
            "started_time" := DNull;
            "finished_time" := DTime (mk_datetime 2022 3 1 10 15 0) ]} ]).
Proof. split; reflexivity. Qed.

(** A [finished_time] that is no time stamp: with the status SUCCESS
    line 66 raises [ValueError]; with the status ABORTED the string
    reaches the database, which refuses it.  Either way the entity
    stays PENDING. *)
Example unparsable_finished_time :
  (∃ msg, update_status_db_in fromisoformat_seconds sample_database
            {[ "status" := "SUCCESS"; "finished_time" := "not-a-time" ]}
            [run_pending] run_filter
          = (Raised (ValueError msg), [run_pending]))
  ∧ update_status_db_in fromisoformat_seconds sample_database
      {[ "status" := "ABORTED"; "finished_time" := "not-a-time" ]}
      [run_pending] run_filter
    = (Refused DataError, [run_pending]).
Proof. split; [eexists |]; reflexivity. Qed.

(** A key that is no column, in the update or in the filter. *)
Example unknown_column_refused :
  update_status_db_in fromisoformat_seconds sample_database
    {[ "status" := "ABORTED"; "reason" := "user" ]} [run_pending] run_filter
  = (Refused InvalidRequestError, [run_pending])
  ∧ update_status_db_in fromisoformat_seconds sample_database
      report_aborted_only [run_pending] {[ "name" := "run-1" ]}
    = (Refused InvalidRequestError, [run_pending]).
Proof. split; reflexivity. Qed.

(** A filter on a time column is compared after the cast. *)
Example filter_on_time_column :
  update_status_db_in fromisoformat_seconds sample_database
    report_aborted_only [other_run] {[ "started_time" := "2022-03-01T09:00:00" ]}
  = (Reply true,
     [ {[ "uuid" := DStr "run-2"; "status" := DStr "ABORTED";
          "started_time" := DTime (mk_datetime 2022 3 1 9 0 0);
          "finished_time" := DNull ]} ]).
Proof. reflexivity. Qed.


(** Both outcomes occur: the caller whose statement runs first wins. *)
Example race_either_order :
  let init := (Called report_success run_filter,
               Called report_failure run_filter,
               [run_pending; other_run]) in
  (∃ t, rtc (step fromisoformat_seconds) init (Returned true, Returned false, t))
  ∧ (∃ t, rtc (step fromisoformat_seconds) init (Returned false, Returned true, t)).
Proof.
  split; eexists.
  - eapply rtc_l; [apply step_left; reflexivity |].
    eapply rtc_l; [apply step_right; reflexivity |].
    eapply rtc_l; [apply step_left; reflexivity |].
    eapply rtc_l; [apply step_right; reflexivity |].
    apply rtc_refl.
  - eapply rtc_l; [apply step_left; reflexivity |].
    eapply rtc_l; [apply step_right; reflexivity |].
    eapply rtc_l; [apply step_right; reflexivity |].
    eapply rtc_l; [apply step_left; reflexivity |].
    apply rtc_refl.
Qed.

Lemma update_status_db_in_returns_witness :
  (update_status_db_in fromisoformat_seconds sample_database report_started
     [run_done; other_run] run_filter).1 = Reply false
  ∧ (update_status_db_in fromisoformat_seconds sample_database report_started
       [run_done; run_pending] run_filter).1 = Reply true.
Proof.
  split.
  - rewrite (update_status_db_in_returns fromisoformat_seconds sample_database
               report_started [run_done; other_run] run_filter
               (<["started_time" := DTime (mk_datetime 2022 3 1 10 0 0)]>
                  (DStr <$> report_started))); reflexivity.
  - rewrite (update_status_db_in_returns fromisoformat_seconds sample_database
               report_started [run_done; run_pending] run_filter
               (<["started_time" := DTime (mk_datetime 2022 3 1 10 0 0)]>
                  (DStr <$> report_started))); reflexivity.
Defined.

Lemma end_state_is_final_witness :
  run_updates fromisoformat_seconds
    [(report_started, run_filter); (report_aborted, ∅); (report_failure, run_filter)]
    [other_run; run_done] !! 1 = Some run_done.
Proof.
  apply (end_state_is_final fromisoformat_seconds); reflexivity.
Defined.

Lemma end_state_update_is_final_witness :
  let table1 := (update_status_db_in fromisoformat_seconds sample_database
                   report_aborted [run_pending; other_run] ∅).2 in
  let out := update_status_db_in fromisoformat_seconds sample_database
               report_started table1 ∅ in
  out.2 = table1 ∧ out.1 = Reply false.
Proof.
  intros table1 out.
  destruct (end_state_update_is_final fromisoformat_seconds sample_database
              report_aborted (DStr <$> report_aborted) "ABORTED"
              [run_pending; other_run] ∅ report_started)
    as [Hsame Hret].
  - reflexivity.
  - reflexivity.
  - reflexivity.
  - rewrite list_elem_of_In; simpl. intuition discriminate.
  - reflexivity.
  - split; [exact Hsame |].
    apply (Hret (<["started_time" := DTime (mk_datetime 2022 3 1 10 0 0)]>
                   (DStr <$> report_started))); reflexivity.
Defined.

Lemma end_state_is_final_in_witness :
  run_updates_in fromisoformat_seconds sample_database
    [(report_started, run_filter); (report_aborted, ∅); (report_failure, steps_filter)]
    [other_run; run_done] !! 1 = Some run_done.
Proof.
  apply (end_state_is_final_in fromisoformat_seconds sample_database); reflexivity.
Defined.

End Status.

(** ** OrchestSettings *)

Module Settings.

#[local] Set Warnings "-register-all".

(** *** Python values

    The values of a settings dictionary come from a JSON column or a JSON
    request body.  [pyval] has [None], booleans, integers, strings and
    lists; JSON numbers with a fraction and JSON objects are left out. *)
Inductive pyval : Type :=
| VNone
| VBool (b : bool)
| VInt (n : Z)
| VStr (s : string)
| VList (l : list pyval).

(** [type(v)], and [type(v).__name__]. *)
Inductive pytype : Type := NoneType | Bool | Int | Str | List.

#[global] Instance pytype_eq_dec : EqDecision pytype.
Proof. solve_decision. Defined.

Definition type_of (v : pyval) : pytype :=
  match v with
  | VNone => NoneType
  | VBool _ => Bool
  | VInt _ => Int
  | VStr _ => Str
  | VList _ => List
  end.

Definition __name__ (t : pytype) : string :=
  match t with
  | NoneType => "NoneType"
  | Bool => "bool"
  | Int => "int"
  | Str => "str"
  | List => "list"
  end.

(** [n < x] and [x <= n] for an [int] literal [n].  A [bool] compares as
    0 or 1; any other type of [x] makes Python raise. *)
Definition int_lt (n : Z) (x : pyval) : result bool :=
  match x with
  | VInt m => Ok (n <? m)%Z
  | VBool b => Ok (n <? Z.b2z b)%Z
  | _ => Raise (TypeError ("'<' not supported between instances of 'int' and '"
                           ++ __name__ (type_of x) ++ "'"))
  end.

Definition le_int (x : pyval) (n : Z) : result bool :=
  match x with
  | VInt m => Ok (m <=? n)%Z
  | VBool b => Ok (Z.b2z b <=? n)%Z
  | _ => Raise (TypeError ("'<=' not supported between instances of '"
                           ++ __name__ (type_of x) ++ "' and 'int'"))
  end.

(** [a == b]: numbers compare by value, also across [bool] and [int];
    strings and lists by content; values of unrelated types differ. *)
Fixpoint py_eq (a b : pyval) : bool :=
  match a, b with
  | VNone, VNone => true
  | VBool x, VBool y => bool_decide (x = y)
  | VBool x, VInt n | VInt n, VBool x => (Z.b2z x =? n)%Z
  | VInt n, VInt m => (n =? m)%Z
  | VStr s, VStr t => bool_decide (s = t)
  | VList l, VList l' =>
      (fix all2 (l l' : list pyval) : bool :=
         match l, l' with
         | [], [] => true
         | x :: l, y :: l' => py_eq x y && all2 l l'
         | _, _ => false
         end) l l'
  | _, _ => false
  end.

(** [a != b]. *)
Definition py_ne (a b : pyval) : bool := negb (py_eq a b).

(** *** The table of settings *)

(** An entry of [_config_values].  The entries without a condition have
    no ["condition-msg"] key. *)
Record ValueSpec : Type := mk_spec {
  spec_default : pyval;
  spec_type : pytype;
  spec_requires_restart : bool;
  spec_condition : option (pyval → result bool);
  spec_condition_msg : option string
}.

(** [lambda x: 0 < x <= 25]: the second comparison runs only when the
    first holds. *)
Definition parallelism_condition (x : pyval) : result bool :=
  b ← int_lt 0 x; if (b : bool) then le_int x 25 else Ok false.

(** [self._values], a [ChainMap] of three dictionaries: [maps[0]] holds
    the settings that cannot be changed, [maps[1]] the current ones and
    [maps[2]] the defaults. *)
Record OrchestSettings : Type := mk_settings {
  maps_0 : gmap string pyval;
  maps_1 : gmap string pyval;
  maps_2 : gmap string pyval
}.

(** The double quote, which a message of [_validate_dict] contains. *)
Definition dquote : string := String (ascii_of_nat 34) EmptyString.

(** The text of the [TypeError] of lines 463-468. *)
Definition mismatch_message (k : string) (correct given : pytype) : string :=
  k ++ " has to be a " ++ dquote ++ __name__ correct ++ dquote ++ " but "
    ++ dquote ++ __name__ given ++ dquote ++ " was given.".

Definition _cloud_unmodifiable_config_opts : list string :=
  ["TELEMETRY_UUID"; "TELEMETRY_DISABLED"; "AUTH_ENABLED"; "INTERCOM_USER_EMAIL"].

Section Class.

(** What the class takes from outside this file: [_config.CLOUD]; the
    string [str(uuid.uuid4())], drawn once when the class is created;
    and the attribute [_path], which the class never sets ([None] when it
    is undefined, as in the class as it stands). *)
Variable _cloud : bool.
Variable telemetry_uuid : string.
Variable _path : option string.

(** [_config_values], in the order of the source. *)
Definition _config_values : list (string * ValueSpec) :=
  [ ("MAX_JOB_RUNS_PARALLELISM",
     mk_spec (VInt 1) Int true (Some parallelism_condition)
       (Some "within the range [1, 25]"));
    ("MAX_INTERACTIVE_RUNS_PARALLELISM",
     mk_spec (VInt 1) Int true (Some parallelism_condition)
       (Some "within the range [1, 25]"));
    ("AUTH_ENABLED", mk_spec (VBool false) Bool true None None);
    ("TELEMETRY_DISABLED", mk_spec (VBool false) Bool true None None);
    ("TELEMETRY_UUID", mk_spec (VStr telemetry_uuid) Str true None None);
    ("INTERCOM_USER_EMAIL",
     mk_spec (VStr "johndoe@example.org") Str true None None) ].

(** [self._cloud and k in self._cloud_unmodifiable_config_opts]. *)
Definition not_allowed_to_migrate (k : string) : bool :=
  _cloud && bool_decide (k ∈ _cloud_unmodifiable_config_opts).

(** One round of the loop of [_validate_dict], lines 447-481, for a key
    that [d] has: the result and [d] after the round.  The condition is
    applied to [given_val], the value read at the top of the round. *)
Definition validate_item (migrate : bool) (k : string) (val : ValueSpec)
    (given_val : pyval) (d : gmap string pyval) : result unit * gmap string pyval :=
  let type_check : result unit * gmap string pyval :=
    if negb (bool_decide (type_of given_val = spec_type val)) then
      if negb migrate || not_allowed_to_migrate k then
        (Raise (TypeError
                  (mismatch_message k (spec_type val) (type_of given_val))), d)
      else (Ok (), <[k := spec_default val]> d)
    else (Ok (), d) in
  match type_check with
  | (Raise e, d) => (Raise e, d)
  | (Ok _, d) =>
      match spec_condition val with
      | None => (Ok (), d)
      | Some condition =>
          match condition given_val with
          | Raise e => (Raise e, d)
          | Ok true => (Ok (), d)
          | Ok false =>
              if negb migrate || not_allowed_to_migrate k then
                match spec_condition_msg val with
                | None => (Raise (KeyError "condition-msg"), d)
                | Some msg => (Raise (ValueError (k ++ " has to be " ++ msg ++ ".")), d)
                end
              else (Ok (), <[k := spec_default val]> d)
          end
      end
  end.

Fixpoint validate_items (items : list (string * ValueSpec)) (migrate : bool)
    (d : gmap string pyval) : result unit * gmap string pyval :=
  match items with
  | [] => (Ok (), d)
  | (k, val) :: items =>
      match d !! k with
      | None => validate_items items migrate d
      | Some given_val =>
          match validate_item migrate k val given_val d with
          | (Raise e, d) => (Raise e, d)
          | (Ok _, d) => validate_items items migrate d
          end
      end
  end.

(** [_validate_dict], lines 425-481.  [d] is changed in place; the second
    component is [d] after the call. *)
Definition _validate_dict (d : gmap string pyval) (migrate : bool)
    : result unit * gmap string pyval :=
  validate_items _config_values migrate d.

(** The table of [models.Setting]: the JSON object in the column
    [value] of each row, by the row's [name], which is its key. *)
Local Abbreviation setting_table := (gmap string (gmap string pyval)).

(** [_fetch_settings_from_db], lines 515-523: [settings[setting.name] =
    setting.value["value"]] for each row. *)
Fixpoint fetch_rows (stored_settings : list (string * gmap string pyval))
    (settings : gmap string pyval) : result (gmap string pyval) :=
  match stored_settings with
  | [] => Ok settings
  | (name, value) :: stored_settings =>
      match value !! "value" with
      | None => Raise (KeyError "value")
      | Some v => fetch_rows stored_settings (<[name := v]> settings)
      end
  end.

Definition _fetch_settings_from_db (table : setting_table)
    : result (gmap string pyval) :=
  fetch_rows (map_to_list table) ∅.

(** The loop of lines 506-511: the settings that cannot be changed are
    copied out of [current_config]; one that is missing there is skipped. *)
Definition copy_unmodifiable (current_config : gmap string pyval)
    : gmap string pyval :=
  foldl (λ unmodifiable_config k,
           match current_config !! k with
           | Some v => <[k := v]> unmodifiable_config
           | None => unmodifiable_config
           end) ∅ _cloud_unmodifiable_config_opts.

(** [_get_current_configs], lines 483-513.  The handler of [TypeError]
    and [ValueError] builds the message of [CorruptedFileError] from
    [self._path]; when that attribute is undefined, reading it raises
    [AttributeError] first. *)
Definition _get_current_configs (table : setting_table)
    : result (gmap string pyval * gmap string pyval) :=
  current_config ← _fetch_settings_from_db table;
  match _validate_dict current_config true with
  | (Raise (TypeError _ | ValueError _), _) =>
      match _path with
      | None => Raise (AttributeError "_path")
      | Some path =>
          Raise (CorruptedFileError
                   ("Option(s) defined in the global user config (" ++ dquote
                      ++ path ++ dquote ++ ") has incorrect type and/or value."))
      end
  | (Raise e, _) => Raise e
  | (Ok _, current_config) =>
      Ok (if _cloud then copy_unmodifiable current_config else ∅, current_config)
  end.

(** [defaults], line 302. *)
Definition defaults : gmap string pyval :=
  foldl (λ (acc : gmap string pyval) '(k, val), <[k := spec_default val]> acc)
    ∅ _config_values.

(** [__init__], lines 281-304. *)
Definition __init__ (table : setting_table) : result OrchestSettings :=
  '(unmodifiable_config, current_config) ← _get_current_configs table;
  Ok (mk_settings unmodifiable_config current_config defaults).

(** [as_dict], lines 306-308: the keys of all three dictionaries, each
    with the value of the first dictionary that has it. *)
Definition as_dict (self : OrchestSettings) : gmap string pyval :=
  maps_0 self ∪ (maps_1 self ∪ maps_2 self).

(** [__getitem__], lines 393-394: [ChainMap] tries its dictionaries in
    turn and raises [KeyError] when none has the key. *)
Definition __getitem__ (self : OrchestSettings) (key : string) : result pyval :=
  match maps_0 self !! key with
  | Some v => Ok v
  | None =>
      match maps_1 self !! key with
      | Some v => Ok v
      | None =>
          match maps_2 self !! key with
          | Some v => Ok v
          | None => Raise (KeyError key)
          end
      end
  end.

(** [update], lines 348-370: the result, and the object after the call.
    An exception of the validator is logged and raised again as it is. *)
Definition update (self : OrchestSettings) (d : gmap string pyval)
    : result unit * OrchestSettings :=
  match _validate_dict d false with
  | (Raise e, _) => (Raise e, self)
  | (Ok _, d) =>
      (Ok (), mk_settings (maps_0 self) (d ∪ maps_1 self) (maps_2 self))
  end.

(** [set], lines 372-391. *)
Definition set (self : OrchestSettings) (d : gmap string pyval)
    : result unit * OrchestSettings :=
  match _validate_dict d false with
  | (Raise e, _) => (Raise e, self)
  | (Ok _, d) => (Ok (), mk_settings (maps_0 self) d (maps_2 self))
  end.

(** One round of the loop of [_changes_require_restart], lines 409-421:
    does [k] go into [res]? *)
Definition restart_needed (config new : gmap string pyval)
    (k : string) (val : ValueSpec) : bool :=
  if negb (spec_requires_restart val) then false
  else if not_allowed_to_migrate k then false
  else
    let old_val := default VNone (config !! k) in
    match new !! k with
    | None | Some VNone => false
    | Some v => py_ne v old_val
    end.

Fixpoint changed_items (config new : gmap string pyval)
    (items : list (string * ValueSpec)) (res : list string) : list string :=
  match items with
  | [] => res
  | (k, val) :: items =>
      changed_items config new items
        (if restart_needed config new k val then res ++ [k] else res)
  end.

(** [_changes_require_restart], lines 396-423; [config] is
    [flask_app.config]. *)
Definition _changes_require_restart (config new : gmap string pyval)
    : list string :=
  changed_items config new _config_values [].

(** [save], lines 310-346, with the table passed in and out.  The insert
    with [on_conflict_do_update] writes every setting over the row of its
    name; the delete removes the rows of all other names. *)
Definition save (self : OrchestSettings) (table : setting_table)
    (flask_app : option (gmap string pyval))
    : option (list string) * setting_table :=
  let settings_as_dict := as_dict self in
  let upserted : setting_table :=
    ((λ v, {[ "value" := v ]}) <$> settings_as_dict) ∪ table in
  let pruned : setting_table :=
    filter (λ row, row.1 ∈ dom settings_as_dict) upserted in
  (match flask_app with
   | None => None
   | Some config => Some (_changes_require_restart config settings_as_dict)
   end, pruned).

(** *** The validator as the specification words it

    Section 4.2 of the specification applies the predicate to
    [candidate[key]], the value the candidate holds when the predicate is
    reached.  [validate_item_spec] differs from [validate_item] in this
    alone. *)
Definition validate_item_spec (migrate : bool) (k : string) (val : ValueSpec)
    (given_val : pyval) (d : gmap string pyval) : result unit * gmap string pyval :=
  let type_check : result unit * gmap string pyval :=
    if negb (bool_decide (type_of given_val = spec_type val)) then
      if negb migrate || not_allowed_to_migrate k then
        (Raise (TypeError
                  (mismatch_message k (spec_type val) (type_of given_val))), d)
      else (Ok (), <[k := spec_default val]> d)
    else (Ok (), d) in
  match type_check with
  | (Raise e, d) => (Raise e, d)
  | (Ok _, d) =>
      match spec_condition val with
      | None => (Ok (), d)
      | Some condition =>
          match condition (default VNone (d !! k)) with
          | Raise e => (Raise e, d)
          | Ok true => (Ok (), d)
          | Ok false =>
              if negb migrate || not_allowed_to_migrate k then
                match spec_condition_msg val with
                | None => (Raise (KeyError "condition-msg"), d)
                | Some msg => (Raise (ValueError (k ++ " has to be " ++ msg ++ ".")), d)
                end
              else (Ok (), <[k := spec_default val]> d)
          end
      end
  end.

Fixpoint validate_items_spec (items : list (string * ValueSpec)) (migrate : bool)
    (d : gmap string pyval) : result unit * gmap string pyval :=
  match items with
  | [] => (Ok (), d)
  | (k, val) :: items =>
      match d !! k with
      | None => validate_items_spec items migrate d
      | Some given_val =>
          match validate_item_spec migrate k val given_val d with
          | (Raise e, d) => (Raise e, d)
          | (Ok _, d) => validate_items_spec items migrate d
          end
      end
  end.

Definition validate_spec (d : gmap string pyval) (migrate : bool)
    : result unit * gmap string pyval :=
  validate_items_spec _config_values migrate d.

(** *** Calls on a settings object

    The two methods that change the object, and the object after a
    sequence of such calls; a call that raises leaves it as it was. *)
Inductive request : Type :=
| CallUpdate (d : gmap string pyval)
| CallSet (d : gmap string pyval).

Definition after_call (self : OrchestSettings) (r : request) : OrchestSettings :=
  match r with
  | CallUpdate d => (update self d).2
  | CallSet d => (set self d).2
  end.

Definition after_calls (self : OrchestSettings) (rs : list request)
    : OrchestSettings :=
  foldl after_call self rs.

End Class.

(** *** Sample settings *)

Definition sample_uuid : string := "3d1b8c1e-5a0f-4c57-9d26-0b6c1f0a7e42".

(** A persisted table: one ordinary row, one row of a key that is no
    longer a setting. *)
Definition stored_table : gmap string (gmap string pyval) :=
  {[ "MAX_JOB_RUNS_PARALLELISM" := {[ "value" := VInt 4 ]};
     "AUTH_ENABLED" := {[ "value" := VBool true ]};
     "OLD_KEY" := {[ "value" := VStr "stale" ]} ]}.

(** The object [__init__] builds from [stored_table] in cloud mode. *)
Definition stored_settings_cloud : OrchestSettings :=
  mk_settings
    {[ "AUTH_ENABLED" := VBool true ]}
    {[ "MAX_JOB_RUNS_PARALLELISM" := VInt 4; "AUTH_ENABLED" := VBool true;
       "OLD_KEY" := VStr "stale" ]}
    (defaults sample_uuid).

(** The same outside cloud mode: nothing is locked. *)
Definition stored_settings : OrchestSettings :=
  mk_settings ∅ (maps_1 stored_settings_cloud) (defaults sample_uuid).

(** A persisted table whose parallelism is a string. *)
Definition corrupted_table : gmap string (gmap string pyval) :=
  {[ "MAX_JOB_RUNS_PARALLELISM" := {[ "value" := VStr "5" ]} ]}.

(** *** Properties of the validator *)

Section ValidatorProps.

Variable cloud : bool.
Variable uuid : string.

Implicit Types (d : gmap string pyval) (items : list (string * ValueSpec)).

(** Without migration a round never writes to [d]. *)
Lemma validate_item_fail_mode k val v d :
  (validate_item cloud false k val v d).2 = d.
Proof.
  unfold validate_item; simpl.
  destruct (bool_decide (type_of v = spec_type val)); simpl; [| done].
  destruct (spec_condition val) as [c |]; [| done].
  destruct (c v) as [[|] | x]; try done.
  by destruct (spec_condition_msg val).
Qed.

Lemma validate_items_fail_mode items d :
  (validate_items cloud items false d).2 = d.
Proof.
  induction items as [| [k val] items IH]; simpl; [done |].
  destruct (d !! k) as [v |]; [| done].
  pose proof (validate_item_fail_mode k val v d) as Hd.
  destruct (validate_item cloud false k val v d) as [[[] | x] d']; simpl in *;
    subst d'; done.
Qed.

(** A round writes to its own key only, and never to a key that may not
    be migrated. *)
Lemma validate_item_lookup migrate k val v d d' r k' :
  validate_item cloud migrate k val v d = (r, d') →
  k' ≠ k ∨ not_allowed_to_migrate cloud k' = true →
  d' !! k' = d !! k'.
Proof.
  intros Hv Hk.
  assert (d' = d ∨ (d' = <[k := spec_default val]> d
                    ∧ not_allowed_to_migrate cloud k = false)) as Hd.
  { revert Hv. unfold validate_item.
    destruct (bool_decide (type_of v = spec_type val)); simpl.
    - destruct (spec_condition val) as [c |]; [| intros [= _ <-]; by left].
      destruct (c v) as [[|] | x]; try (intros [= _ <-]; by left).
      destruct (negb migrate || not_allowed_to_migrate cloud k) eqn:Hn.
      + destruct (spec_condition_msg val); intros [= _ <-]; by left.
      + intros [= _ <-]. right. split; [done |].
        by apply orb_false_iff in Hn as [_ ?].
    - destruct (negb migrate || not_allowed_to_migrate cloud k) eqn:Hn.
      + intros [= _ <-]; by left.
      + apply orb_false_iff in Hn as [_ Hn].
        destruct (spec_condition val) as [c |];
          [| intros [= _ <-]; right; by rewrite ?insert_insert_eq].
        destruct (c v) as [[|] | x]; intros [= _ <-]; right;
          by rewrite ?Hn, ?orb_false_r, ?insert_insert_eq.
  }
  destruct Hd as [-> | [-> Hn]]; [done |].
  apply lookup_insert_ne. intros ->. destruct Hk as [? | Hk]; [done |]. congruence.
Qed.

Lemma validate_items_lookup items migrate d d' r k' :
  validate_items cloud items migrate d = (r, d') →
  k' ∉ items.*1 ∨ not_allowed_to_migrate cloud k' = true →
  d' !! k' = d !! k'.
Proof.
  revert d. induction items as [| [k val] items IH]; simpl; intros d Hv Hk.
  { by injection Hv as _ <-. }
  assert (k' ∉ items.*1 ∨ not_allowed_to_migrate cloud k' = true) as Hk'.
  { destruct Hk as [Hk | Hk]; [left | by right].
    intros Hin. apply Hk. by right. }
  assert (k' ≠ k ∨ not_allowed_to_migrate cloud k' = true) as Hk''.
  { destruct Hk as [Hk | Hk]; [left | by right].
    intros ->. apply Hk. by left. }
  destruct (d !! k) as [v |]; [| by apply IH].
  destruct (validate_item cloud migrate k val v d) as [[[] | x] d1] eqn:Hi.
  - rewrite (IH d1 Hv Hk'). by eapply validate_item_lookup.
  - injection Hv as _ <-. by eapply validate_item_lookup.
Qed.

(** A key outside the table takes no part in the validation: with any
    value under it, the result is the same and the key keeps its value. *)
Lemma validate_item_insert migrate k val v d k' v' :
  k' ≠ k →
  validate_item cloud migrate k val v (<[k' := v']> d)
  = ((validate_item cloud migrate k val v d).1,
     <[k' := v']> ((validate_item cloud migrate k val v d).2)).
Proof.
  intros Hne. unfold validate_item.
  destruct (bool_decide (type_of v = spec_type val)); simpl.
  - destruct (spec_condition val) as [c |]; [| done].
    destruct (c v) as [[|] | x]; try done.
    destruct (negb migrate || not_allowed_to_migrate cloud k).
    + by destruct (spec_condition_msg val).
    + simpl. by rewrite insert_insert_ne.
  - destruct (negb migrate || not_allowed_to_migrate cloud k); [done |].
    destruct (spec_condition val) as [c |]; [| simpl; by rewrite insert_insert_ne].
    destruct (c v) as [[|] | x]; simpl;
      by rewrite ?insert_insert_eq, 1?(insert_insert_ne d k k').
Qed.

Lemma validate_items_insert items migrate d k' v' :
  k' ∉ items.*1 →
  validate_items cloud items migrate (<[k' := v']> d)
  = ((validate_items cloud items migrate d).1,
     <[k' := v']> ((validate_items cloud items migrate d).2)).
Proof.
  revert d. induction items as [| [k val] items IH]; simpl; intros d Hk; [done |].
  assert (k' ≠ k) as Hne by (intros ->; apply Hk; by left).
  assert (k' ∉ items.*1) as Hk' by (intros Hin; apply Hk; by right).
  rewrite lookup_insert_ne by done.
  destruct (d !! k) as [v |]; [| by apply IH].
  rewrite validate_item_insert by done.
  destruct (validate_item cloud migrate k val v d) as [[[] | x] d1]; simpl; [| done].
  by apply IH.
Qed.

(** [d] has nothing wrong under the key [k]: the key is missing, or its
    value has the type of the entry and meets the condition of the
    entry. *)
Definition entry_valid d (k : string) (val : ValueSpec) : Prop :=
  match d !! k with
  | None => True
  | Some v =>
      type_of v = spec_type val
      ∧ match spec_condition val with
        | None => True
        | Some condition => condition v = Ok true
        end
  end.

Lemma validate_item_valid migrate k val v d :
  d !! k = Some v → entry_valid d k val →
  validate_item cloud migrate k val v d = (Ok (), d).
Proof.
  unfold entry_valid, validate_item. intros -> [Ht Hc].
  rewrite (bool_decide_eq_true_2 _ Ht); simpl.
  destruct (spec_condition val) as [c |]; [| done]. by rewrite Hc.
Qed.

Lemma validate_items_valid items migrate d :
  Forall (λ kv, entry_valid d kv.1 kv.2) items →
  validate_items cloud items migrate d = (Ok (), d).
Proof.
  induction 1 as [| [k val] items Hkv _ IH]; simpl in *; [done |].
  destruct (d !! k) as [v |] eqn:Hd; [| done].
  by rewrite (validate_item_valid migrate k val v d Hd Hkv).
Qed.

Lemma validate_item_wrong_type k val v d :
  type_of v ≠ spec_type val →
  validate_item cloud false k val v d
  = (Raise (TypeError (mismatch_message k (spec_type val) (type_of v))), d).
Proof.
  intros Ht. unfold validate_item. by rewrite (bool_decide_eq_false_2 _ Ht).
Qed.

Lemma validate_items_first_wrong_type before k val after d v :
  Forall (λ kv, entry_valid d kv.1 kv.2) before →
  d !! k = Some v →
  type_of v ≠ spec_type val →
  validate_items cloud (before ++ (k, val) :: after) false d
  = (Raise (TypeError (mismatch_message k (spec_type val) (type_of v))), d).
Proof.
  intros Hb Hd Ht.
  induction Hb as [| [k0 val0] before Hkv _ IH]; simpl in *.
  - by rewrite Hd, validate_item_wrong_type.
  - destruct (d !! k0) as [v0 |] eqn:Hd0; [| done].
    by rewrite (validate_item_valid false k0 val0 v0 d Hd0 Hkv).
Qed.

Lemma validate_items_wrong_type items d k val v :
  (k, val) ∈ items →
  d !! k = Some v →
  type_of v ≠ spec_type val →
  ∃ e, validate_items cloud items false d = (Raise e, d).
Proof.
  intros Hin Hd Ht.
  induction items as [| [k0 val0] items IH]; [by apply elem_of_nil in Hin |].
  simpl. apply elem_of_cons in Hin as [[= <- <-] | Hin].
  - rewrite Hd, validate_item_wrong_type by done. eauto.
  - destruct (d !! k0) as [v0 |]; [| by apply IH].
    pose proof (validate_item_fail_mode k0 val0 v0 d) as Hsame.
    destruct (validate_item cloud false k0 val0 v0 d) as [[[] | x] d1];
      simpl in Hsame; subst d1; [by apply IH | eauto].
Qed.

(** C6.  [update] with a candidate [d] that holds, under a key [k] of
    the table, a value of another type than the entry's: the call raises
    the exception the validator raised, as it is, and the object is
    unchanged, so nothing of [d] is merged; [d] itself is unchanged too.
    The exception is the [TypeError] for [k] whenever no entry before
    [k] in the table finds fault with [d]; the first entry of the table,
    MAX_JOB_RUNS_PARALLELISM, has none before it. *)
Theorem update_rejects_wrong_type self d k val v :
  (k, val) ∈ _config_values uuid →
  d !! k = Some v →
  type_of v ≠ spec_type val →
  (∃ e, update cloud uuid self d = (Raise e, self)
        ∧ _validate_dict cloud uuid d false = (Raise e, d))
  ∧ (∀ before after : list (string * ValueSpec),
       _config_values uuid = (before ++ (k, val) :: after)%list →
       Forall (λ kv, entry_valid d kv.1 kv.2) before →
       update cloud uuid self d
       = (Raise (TypeError (mismatch_message k (spec_type val) (type_of v))),
          self)).
Proof.
  intros Hin Hd Ht. split.
  - destruct (validate_items_wrong_type _ d k val v Hin Hd Ht) as [e He].
    exists e. unfold update, _validate_dict. by rewrite He.
  - intros before after Hsplit Hb. unfold update, _validate_dict.
    by rewrite Hsplit, (validate_items_first_wrong_type before k val after d v).
Qed.

End ValidatorProps.

(** *** Properties of the settings object *)

Section SettingsProps.

Variable cloud : bool.
Variable uuid : string.
Variable path : option string.

Implicit Types (d : gmap string pyval) (self : OrchestSettings).
Implicit Types (table : gmap string (gmap string pyval)).

Lemma defaults_lookup k val :
  (k, val) ∈ _config_values uuid → defaults uuid !! k = Some (spec_default val).
Proof.
  unfold _config_values. intros Hin.
  repeat (apply elem_of_cons in Hin as [[= -> ->] | Hin]); try reflexivity.
  by apply elem_of_nil in Hin.
Qed.

Lemma copy_unmodifiable_lookup d k :
  copy_unmodifiable d !! k
  = if bool_decide (k ∈ _cloud_unmodifiable_config_opts) then d !! k else None.
Proof.
  unfold copy_unmodifiable.
  assert (∀ (l : list string) (acc : gmap string pyval),
            foldl (λ acc k, match d !! k with
                            | Some v => <[k := v]> acc
                            | None => acc
                            end) acc l !! k
            = if bool_decide (k ∈ l)
              then match d !! k with Some v => Some v | None => acc !! k end
              else acc !! k) as Hfold.
  { induction l as [| k0 l IH]; intros acc; simpl; [done |].
    rewrite IH. destruct (decide (k = k0)) as [-> | Hne].
    - rewrite (bool_decide_eq_true_2 (k0 ∈ k0 :: l)) by (by left).
      destruct (d !! k0) as [v |] eqn:Hd.
      + by destruct (bool_decide (k0 ∈ l)); rewrite ?lookup_insert_eq.
      + by destruct (bool_decide (k0 ∈ l)).
    - assert (bool_decide (k ∈ k0 :: l) = bool_decide (k ∈ l)) as ->.
      { apply bool_decide_ext. rewrite elem_of_cons. tauto. }
      destruct (d !! k0) as [v0 |]; [| done].
      by rewrite lookup_insert_ne. }
  rewrite Hfold, lookup_empty.
  destruct (bool_decide _); [| done]. by destruct (d !! k).
Qed.

(** What a construction that succeeds has built. *)
Lemma init_inv table self0 :
  __init__ cloud uuid path table = Ok self0 →
  ∃ fetched current_config,
    _fetch_settings_from_db table = Ok fetched
    ∧ _validate_dict cloud uuid fetched true = (Ok (), current_config)
    ∧ self0 = mk_settings
                (if cloud then copy_unmodifiable current_config else ∅)
                current_config (defaults uuid).
Proof.
  unfold __init__, _get_current_configs. intros Hinit.
  destruct (_fetch_settings_from_db table) as [fetched | x]; [| discriminate].
  simpl in Hinit.
  destruct (_validate_dict cloud uuid fetched true) as [[[] | x] cur] eqn:Hv.
  - simpl in Hinit. injection Hinit as <-. by exists fetched, cur.
  - destruct x; destruct path; discriminate.
Qed.

(** [update] and [set] write to [maps[1]] only. *)
Lemma after_calls_maps self rs :
  maps_0 (after_calls cloud uuid self rs) = maps_0 self
  ∧ maps_2 (after_calls cloud uuid self rs) = maps_2 self.
Proof.
  revert self. induction rs as [| r rs IH]; intros self; simpl; [done |].
  destruct (IH (after_call cloud uuid self r)) as [-> ->].
  destruct r as [d | d]; unfold after_call, update, set;
    by destruct (_validate_dict cloud uuid d false) as [[[] | x] d'].
Qed.

Lemma getitem_as_dict self key v :
  __getitem__ self key = Ok v ↔ as_dict self !! key = Some v.
Proof.
  unfold __getitem__, as_dict. rewrite !lookup_union.
  destruct (maps_0 self !! key), (maps_1 self !! key), (maps_2 self !! key);
    compute; split; congruence.
Qed.

(** C5.  For an object built by [__init__] and then put through any
    calls of [update] and [set]: a lookup answers from [maps[0]] (the
    locked settings), else from [maps[1]] (the stored ones), else from
    the defaults; for a key of the table that the first two lack it
    returns the default of the table, and for no key of the table does
    it raise.  In cloud mode, a key of
    [_cloud_unmodifiable_config_opts] that the table of settings held
    when the object was built keeps answering with the value it had
    then, whatever the calls were. *)
Theorem lookup_order table self0 rs :
  __init__ cloud uuid path table = Ok self0 →
  let self := after_calls cloud uuid self0 rs in
  (∀ key v, maps_0 self !! key = Some v → __getitem__ self key = Ok v)
  ∧ (∀ key v, maps_0 self !! key = None → maps_1 self !! key = Some v →
       __getitem__ self key = Ok v)
  ∧ (∀ k val, (k, val) ∈ _config_values uuid →
       maps_0 self !! k = None → maps_1 self !! k = None →
       __getitem__ self k = Ok (spec_default val))
  ∧ (∀ k val, (k, val) ∈ _config_values uuid →
       is_ok (__getitem__ self k) = true)
  ∧ (∀ fetched k v,
       cloud = true →
       k ∈ _cloud_unmodifiable_config_opts →
       _fetch_settings_from_db table = Ok fetched →
       fetched !! k = Some v →
       maps_0 self !! k = Some v ∧ __getitem__ self k = Ok v).
Proof.
  intros Hinit self.
  destruct (init_inv table self0 Hinit) as (fetched & cur & Hf & Hv & Hself).
  destruct (after_calls_maps self0 rs) as [H0 H2]. fold self in H0, H2.
  assert (maps_2 self = defaults uuid) as Hdef by (by rewrite H2, Hself).
  split; [| split; [| split; [| split]]].
  - intros key v Hk. unfold __getitem__. by rewrite Hk.
  - intros key v Hk0 Hk1. unfold __getitem__. by rewrite Hk0, Hk1.
  - intros k val Hin Hk0 Hk1. unfold __getitem__.
    by rewrite Hk0, Hk1, Hdef, (defaults_lookup k val Hin).
  - intros k val Hin. unfold __getitem__.
    rewrite Hdef, (defaults_lookup k val Hin).
    by destruct (maps_0 self !! k), (maps_1 self !! k).
  - intros fetched' k v -> Hk Hf' Hfk.
    assert (fetched' = fetched) as -> by congruence.
    assert (maps_0 self !! k = Some v) as Hk0.
    { rewrite H0, Hself; simpl.
      rewrite copy_unmodifiable_lookup, (bool_decide_eq_true_2 _ Hk).
      rewrite <- Hfk. eapply validate_items_lookup; [exact Hv |].
      right. unfold not_allowed_to_migrate. by rewrite (bool_decide_eq_true_2 _ Hk). }
    split; [done |]. unfold __getitem__. by rewrite Hk0.
Qed.

(** **** The restart report *)

Lemma changed_items_filter config new items res :
  changed_items cloud config new items res
  = (res ++ (filter (λ kv, restart_needed cloud config new kv.1 kv.2 = true)
               items).*1)%list.
Proof.
  revert res. induction items as [| [k val] items IH]; intros res; simpl.
  { by rewrite app_nil_r. }
  rewrite IH, filter_cons; simpl.
  destruct (restart_needed cloud config new k val); simpl.
  - destruct (decide (true = true)); [| done]. by rewrite <- app_assoc.
  - destruct (decide (false = true)); [discriminate | done].
Qed.

(** The test of one round in the words of the specification: the entry
    requires
    a restart, the key is not (cloud mode and unmodifiable), [new] has a
    value other than [None] under the key, and that value differs from
    [config.get(k)]. *)
Lemma restart_needed_iff config new k val :
  restart_needed cloud config new k val = true
  ↔ spec_requires_restart val = true
    ∧ ¬ (cloud = true ∧ k ∈ _cloud_unmodifiable_config_opts)
    ∧ ∃ v, new !! k = Some v ∧ v ≠ VNone
           ∧ py_ne v (default VNone (config !! k)) = true.
Proof.
  unfold restart_needed, not_allowed_to_migrate. split.
  - destruct (spec_requires_restart val); simpl; [| discriminate].
    destruct (cloud && bool_decide _) eqn:Hn; [discriminate |].
    intros H. split; [done |]. split.
    + intros [-> Hk]. by rewrite (bool_decide_eq_true_2 _ Hk) in Hn.
    + destruct (new !! k) as [v |]; [| discriminate].
      exists v. by destruct v.
  - intros (-> & Hn & v & -> & Hv & Hne); simpl.
    assert (cloud && bool_decide (k ∈ _cloud_unmodifiable_config_opts) = false)
      as ->.
    { destruct cloud; [| done]. simpl. apply bool_decide_eq_false. tauto. }
    by destruct v.
Qed.

Lemma config_values_keys_NoDup : NoDup (_config_values uuid).*1.
Proof.
  apply NoDup_ListNoDup; simpl.
  repeat constructor; simpl; intuition discriminate.
Qed.

(** C7.  The list that [_changes_require_restart] returns is the keys
    of the table, in the order of the table and each at most once, that
    pass the test of the loop: the entry requires a restart, the key is
    not (cloud mode and unmodifiable), [new] holds under the key a value
    that is not [None], and that value is [!=] to [config.get(key)].
    When [new] and [config] agree on every key of the table, the list is
    empty. *)
Theorem changes_require_restart_spec (config new : gmap string pyval) :
  let res := _changes_require_restart cloud uuid config new in
  res = (filter (λ kv, restart_needed cloud config new kv.1 kv.2 = true)
           (_config_values uuid)).*1
  ∧ res `sublist_of` (_config_values uuid).*1
  ∧ NoDup res
  ∧ (∀ k, k ∈ res ↔
          ∃ val v, (k, val) ∈ _config_values uuid
                   ∧ spec_requires_restart val = true
                   ∧ ¬ (cloud = true ∧ k ∈ _cloud_unmodifiable_config_opts)
                   ∧ new !! k = Some v ∧ v ≠ VNone
                   ∧ py_ne v (default VNone (config !! k)) = true)
  ∧ ((∀ k val v, (k, val) ∈ _config_values uuid → new !! k = Some v →
                 py_ne v (default VNone (config !! k)) = false) →
     res = []).
Proof.
  intros res.
  assert (res = (filter (λ kv, restart_needed cloud config new kv.1 kv.2 = true)
                   (_config_values uuid)).*1) as Hres.
  { subst res. unfold _changes_require_restart. by rewrite changed_items_filter. }
  assert (res `sublist_of` (_config_values uuid).*1) as Hsub.
  { rewrite Hres. apply fmap_sublist, sublist_filter. }
  assert (∀ k, k ∈ res ↔
               ∃ val v, (k, val) ∈ _config_values uuid
                        ∧ spec_requires_restart val = true
                        ∧ ¬ (cloud = true ∧ k ∈ _cloud_unmodifiable_config_opts)
                        ∧ new !! k = Some v ∧ v ≠ VNone
                        ∧ py_ne v (default VNone (config !! k)) = true) as Hiff.
  { intros k. rewrite Hres, list_elem_of_fmap. split.
    - intros ([k' val] & -> & [Hp Hin]%list_elem_of_filter); simpl in *.
      apply restart_needed_iff in Hp as (Hr & Hn & v & Hv & Hnone & Hne).
      by exists val, v.
    - intros (val & v & Hin & Hr & Hn & Hv & Hnone & Hne).
      exists (k, val). split; [done |]. apply list_elem_of_filter.
      split; [| done]. simpl. apply restart_needed_iff. eauto 10. }
  split; [done |]. split; [done |]. split.
  { eapply sublist_NoDup; [apply config_values_keys_NoDup | done]. }
  split; [done |].
  intros Hagree. apply elem_of_nil_inv. intros k Hk.
  apply Hiff in Hk as (val & v & Hin & _ & _ & Hv & _ & Hne).
  rewrite (Hagree k val v Hin Hv) in Hne. discriminate.
Qed.

(** **** Saving *)

Lemma fetch_rows_spec (l : list (string * gmap string pyval)) (acc : gmap string pyval) :
  NoDup l.*1 →
  (∀ name value, (name, value) ∈ l → is_Some (value !! "value")) →
  ∃ settings,
    fetch_rows l acc = Ok settings
    ∧ ∀ k, settings !! k
           = match (list_to_map l : gmap string (gmap string pyval)) !! k with
             | Some value => value !! "value"
             | None => acc !! k
             end.
Proof.
  revert acc. induction l as [| [name value] l IH]; intros acc Hnd Hval.
  { exists acc. split; [done |]. intros k.
    by rewrite list_to_map_nil, lookup_empty. }
  simpl in Hnd. apply NoDup_cons in Hnd as [Hname Hnd].
  destruct (Hval name value) as [v Hv]; [by left |].
  destruct (IH (<[name := v]> acc) Hnd) as (settings & Hfetch & Hlook).
  { intros n' v' Hin. apply (Hval n' v'). by right. }
  exists settings. simpl. rewrite Hv. split; [exact Hfetch |].
  intros k. rewrite Hlook. destruct (decide (k = name)) as [-> | Hne].
  - by rewrite !lookup_insert_eq, (not_elem_of_list_to_map_1 l name Hname), Hv.
  - by rewrite !lookup_insert_ne.
Qed.

(** When every row has the key ["value"] in its column, the fetch gives
    the setting of each row under the row's name. *)
Lemma fetch_settings_spec table :
  (∀ name value, table !! name = Some value → is_Some (value !! "value")) →
  ∃ settings,
    _fetch_settings_from_db table = Ok settings
    ∧ ∀ k, settings !! k = table !! k ≫= (.!! "value").
Proof.
  intros Hval. unfold _fetch_settings_from_db.
  destruct (fetch_rows_spec (map_to_list table) ∅) as (settings & Hf & Hl).
  { apply NoDup_fst_map_to_list. }
  { intros name value Hin. apply (Hval name value). by apply elem_of_map_to_list. }
  exists settings. split; [done |]. intros k.
  rewrite Hl, list_to_map_to_list. by destruct (table !! k).
Qed.

(** The table [save] leaves: every setting of [as_dict], wrapped as the
    JSON object of its row, and nothing else. *)
Lemma save_table_wrapped self table flask_app :
  (save cloud uuid self table flask_app).2
  = (λ v, {[ "value" := v ]}) <$> as_dict self.
Proof.
  unfold save; simpl. apply map_eq. intros k.
  rewrite map_lookup_filter, lookup_union, lookup_fmap; simpl.
  destruct (as_dict self !! k) as [v |] eqn:Hk; simpl.
  - rewrite union_Some_l; simpl.
    rewrite option_guard_True; [done |]. apply elem_of_dom. eauto.
  - rewrite (left_id None _). destruct (table !! k) as [row |]; [| done]. simpl.
    rewrite option_guard_False; [done |].
    rewrite elem_of_dom, Hk. by intros [? ?].
Qed.

Lemma fetch_wrapped (settings : gmap string pyval) :
  _fetch_settings_from_db ((λ v, {[ "value" := v ]}) <$> settings) = Ok settings.
Proof.
  destruct (fetch_settings_spec ((λ v, {[ "value" := v ]}) <$> settings))
    as (fetched & Hf & Hl).
  { intros name value. rewrite lookup_fmap.
    destruct (settings !! name) as [v |]; [| done].
    intros [= <-]. exists v. apply lookup_singleton_eq. }
  rewrite Hf. f_equal. apply map_eq. intros k. rewrite Hl, lookup_fmap.
  destruct (settings !! k) as [v |]; [| done]. simpl. apply lookup_singleton_eq.
Qed.

(** C8.  The table after [save] is the flattened settings, each wrapped
    as the JSON object of its row: it has the keys of [as_dict] and no
    other, a row written before under another name is gone, and
    [_fetch_settings_from_db] reads back [as_dict]. *)
Theorem save_table self table flask_app :
  let table' := (save cloud uuid self table flask_app).2 in
  table' = (λ v, {[ "value" := v ]}) <$> as_dict self
  ∧ dom table' = dom (as_dict self)
  ∧ (∀ k v, as_dict self !! k = Some v → table' !! k = Some {[ "value" := v ]})
  ∧ (∀ k, as_dict self !! k = None → table' !! k = None)
  ∧ _fetch_settings_from_db table' = Ok (as_dict self).
Proof.
  intros table'.
  assert (table' = (λ v, {[ "value" := v ]}) <$> as_dict self) as Heq.
  { subst table'. unfold save; simpl. apply map_eq. intros k.
    rewrite map_lookup_filter, lookup_union, lookup_fmap; simpl.
    destruct (as_dict self !! k) as [v |] eqn:Hk; simpl.
    - rewrite union_Some_l; simpl.
      rewrite option_guard_True; [done |]. apply elem_of_dom. eauto.
    - rewrite (left_id None _). destruct (table !! k) as [row |]; [| done]. simpl.
      rewrite option_guard_False; [done |].
      rewrite elem_of_dom, Hk. by intros [? ?]. }
  split; [done |]. split; [by rewrite Heq, dom_fmap_L |].
  split; [intros k v Hk; by rewrite Heq, lookup_fmap, Hk |].
  split; [intros k Hk; by rewrite Heq, lookup_fmap, Hk |].
  destruct (fetch_settings_spec table') as (settings & Hf & Hl).
  { intros name value. rewrite Heq, lookup_fmap.
    destruct (as_dict self !! name) as [v |]; [| done].
    intros [= <-]. exists v. apply lookup_singleton_eq. }
  rewrite Hf. f_equal. apply map_eq. intros k.
  rewrite Hl, Heq, lookup_fmap.
  destruct (as_dict self !! k) as [v |]; [| done]. simpl.
  apply lookup_singleton_eq.
Qed.

(** **** Keys outside the table *)

Lemma unmodifiable_opts_in_table k :
  k ∈ _cloud_unmodifiable_config_opts → k ∈ (_config_values uuid).*1.
Proof.
  unfold _cloud_unmodifiable_config_opts, _config_values. intros Hin; simpl.
  repeat (apply elem_of_cons in Hin as [-> | Hin]);
    [.. | by apply elem_of_nil in Hin];
    rewrite !elem_of_cons; tauto.
Qed.

Lemma init_maps_0_outside table self0 rs k :
  __init__ cloud uuid path table = Ok self0 →
  k ∉ (_config_values uuid).*1 →
  maps_0 (after_calls cloud uuid self0 rs) !! k = None.
Proof.
  intros Hinit Hk.
  destruct (init_inv table self0 Hinit) as (fetched & cur & _ & _ & ->).
  destruct (after_calls_maps (mk_settings
              (if cloud then copy_unmodifiable cur else ∅) cur (defaults uuid)) rs)
    as [-> _]; simpl.
  destruct cloud; [| done].
  rewrite copy_unmodifiable_lookup. case_bool_decide as Hin; [| done].
  by apply unmodifiable_opts_in_table in Hin.
Qed.

(** C10.  Take a candidate [d] that the validator accepts and that holds
    a value [v] under a key [k] outside the table.  The validator
    accepts [d] with any other value under [k] as well: the key is not
    looked at.  [update] and [set] both succeed, and on the object they
    leave behind [k] is in [maps[1]], a lookup of [k] and [as_dict] give
    [v], and [save] writes the row of [k] next to the rows of the table's
    keys. *)
Theorem unknown_key_accepted table self0 rs d k v :
  __init__ cloud uuid path table = Ok self0 →
  k ∉ (_config_values uuid).*1 →
  d !! k = Some v →
  (_validate_dict cloud uuid d false).1 = Ok () →
  let self := after_calls cloud uuid self0 rs in
  (∀ v', (_validate_dict cloud uuid (<[k := v']> d) false).1 = Ok ())
  ∧ (update cloud uuid self d).1 = Ok ()
  ∧ (set cloud uuid self d).1 = Ok ()
  ∧ (∀ self', self' = (update cloud uuid self d).2
              ∨ self' = (set cloud uuid self d).2 →
       maps_1 self' !! k = Some v
       ∧ __getitem__ self' k = Ok v
       ∧ as_dict self' !! k = Some v
       ∧ (∀ k' val, (k', val) ∈ _config_values uuid →
            is_Some (as_dict self' !! k'))
       ∧ ∀ tbl flask_app,
           (save cloud uuid self' tbl flask_app).2 !! k = Some {[ "value" := v ]}).
Proof.
  intros Hinit Hk Hd Hok self.
  pose proof (init_maps_0_outside table self0 rs k Hinit Hk) as H0. fold self in H0.
  pose proof (validate_items_fail_mode cloud (_config_values uuid) d) as Hsame.
  fold (_validate_dict cloud uuid d false) in Hsame.
  destruct (_validate_dict cloud uuid d false) as [r d'] eqn:Hv; simpl in *.
  subst r d'.
  split.
  { intros v'. unfold _validate_dict.
    rewrite validate_items_insert by done.
    fold (_validate_dict cloud uuid d false). by rewrite Hv. }
  unfold update, set. rewrite Hv; simpl.
  split; [done |]. split; [done |].
  assert (maps_2 self = defaults uuid) as Hdef.
  { destruct (init_inv table self0 Hinit) as (? & ? & _ & _ & Hs).
    destruct (after_calls_maps self0 rs) as [_ H2]. fold self in H2.
    by rewrite H2, Hs. }
  intros self' Hself'.
  assert (maps_0 self' = maps_0 self ∧ maps_1 self' !! k = Some v
          ∧ maps_2 self' = defaults uuid) as (E0 & E1 & E2).
  { destruct Hself' as [-> | ->]; simpl; (split; [done |]); (split; [| done]);
      [by apply lookup_union_Some_l | done]. }
  assert (as_dict self' !! k = Some v) as Hdict.
  { unfold as_dict. rewrite lookup_union_r by (by rewrite E0).
    by apply lookup_union_Some_l. }
  split; [done |]. split; [by apply getitem_as_dict |]. split; [done |].
  split.
  { intros k' val Hin. unfold as_dict. rewrite !lookup_union, E2.
    rewrite (defaults_lookup k' val Hin).
    destruct (maps_0 self' !! k'), (maps_1 self' !! k'); by eexists. }
  intros tbl flask_app.
  pose proof (save_table_wrapped self' tbl flask_app) as Hsave.
  apply (f_equal (.!! k)) in Hsave. rewrite lookup_fmap, Hdict in Hsave.
  exact Hsave.
Qed.

(** **** The validator with migration *)

(** In fail mode the validator of the source and the validator as the
    specification words it are the same function: nothing is written to
    the candidate, so [candidate[key]] still is the value first read. *)
Lemma validate_spec_fail_mode d :
  validate_spec cloud uuid d false = _validate_dict cloud uuid d false.
Proof.
  unfold validate_spec, _validate_dict.
  induction (_config_values uuid) as [| [k val] items IH]; simpl; [done |].
  destruct (d !! k) as [v |] eqn:Hd; [| done].
  assert (validate_item_spec cloud false k val v d
          = validate_item cloud false k val v d) as ->.
  { unfold validate_item_spec, validate_item; simpl.
    destruct (bool_decide (type_of v = spec_type val)); simpl; [| done].
    by rewrite Hd. }
  pose proof (validate_item_fail_mode cloud k val v d) as Hsame.
  destruct (validate_item cloud false k val v d) as [[[] | x] d1];
    simpl in Hsame; subst d1; done.
Qed.

(** With migration, a parallelism setting whose value is a string, a
    list or [None] makes the validator raise: the value is replaced by
    the default, and then the condition compares the value first read
    with 0. *)
Lemma migrate_incomparable_raises d v :
  cloud = false →
  d !! "MAX_JOB_RUNS_PARALLELISM" = Some v →
  type_of v ∈ [NoneType; Str; List] →
  (_validate_dict cloud uuid d true).1
  = Raise (TypeError ("'<' not supported between instances of 'int' and '"
                      ++ __name__ (type_of v) ++ "'")).
Proof.
  intros -> Hd Ht. unfold _validate_dict, _config_values; simpl. rewrite Hd.
  destruct v; repeat (apply elem_of_cons in Ht as [Ht | Ht]);
    try discriminate; try (by apply elem_of_nil in Ht); done.
Qed.

(** Where migration does work: outside cloud mode, when no condition of
    the table raises on the value [d] holds under its key, the validator
    with migration returns normally. *)
Lemma validate_items_migrate_ok items d :
  NoDup items.*1 →
  (∀ k val v condition,
     (k, val) ∈ items → d !! k = Some v →
     spec_condition val = Some condition → is_ok (condition v) = true) →
  (validate_items false items true d).1 = Ok ().
Proof.
  revert d. induction items as [| [k val] items IH]; intros d Hnd Hc; [done |].
  simpl in Hnd. apply NoDup_cons in Hnd as [Hk Hnd]. simpl.
  destruct (d !! k) as [v |] eqn:Hd.
  2:{ apply IH; [done |]. intros k' val' v' c Hin. apply Hc. by right. }
  assert (∃ d1, validate_item false true k val v d = (Ok (), d1)) as [d1 Hd1].
  { unfold validate_item, not_allowed_to_migrate; simpl.
    destruct (spec_condition val) as [c |] eqn:Hcond.
    - specialize (Hc k val v c (list_elem_of_here _ _) Hd Hcond).
      destruct (c v) as [[|] | x]; [| | discriminate];
        destruct (bool_decide (type_of v = spec_type val)); simpl; eauto.
    - destruct (bool_decide (type_of v = spec_type val)); simpl; eauto. }
  rewrite Hd1. apply IH; [done |].
  intros k' val' v' c Hin Hd'. apply (Hc k' val' v' c); [by right |].
  rewrite <- Hd'. symmetry. eapply validate_item_lookup; [exact Hd1 |].
  left. intros ->. apply Hk. apply list_elem_of_fmap. by exists (k, val').
Qed.

Lemma migrate_comparable_ok d :
  (∀ k v, k ∈ ["MAX_JOB_RUNS_PARALLELISM"; "MAX_INTERACTIVE_RUNS_PARALLELISM"] →
          d !! k = Some v → type_of v ∈ [Bool; Int]) →
  (_validate_dict false uuid d true).1 = Ok ().
Proof.
  intros Hd. unfold _validate_dict.
  apply validate_items_migrate_ok; [apply config_values_keys_NoDup |].
  intros k val v c Hin Hk Hc. unfold _config_values in Hin.
  repeat (apply elem_of_cons in Hin as [[= -> ->] | Hin]);
    try discriminate; try (by apply elem_of_nil in Hin);
    injection Hc as <-;
    (assert (type_of v ∈ [Bool; Int]) as Ht
       by (eapply Hd; [| exact Hk]; rewrite !elem_of_cons; tauto));
    destruct v; repeat (apply elem_of_cons in Ht as [Ht | Ht]);
    try discriminate; try (by apply elem_of_nil in Ht);
    unfold parallelism_condition; simpl;
    match goal with |- context [(0 <? ?n)%Z] => by destruct (0 <? n)%Z end.
Qed.

(** C2, on the code.  A persisted parallelism of ["5"], a string, read
    outside cloud mode: the validator, asked to migrate, puts the default
    in its place and then raises the [TypeError] of comparing 0 with the
    string; so the construction of the object fails, with
    [CorruptedFileError], or, [_path] being undefined, with the
    [AttributeError] of reading it. *)
Theorem migration_raises_on_string :
  _validate_dict false uuid {[ "MAX_JOB_RUNS_PARALLELISM" := VStr "5" ]} true
  = (Raise (TypeError "'<' not supported between instances of 'int' and 'str'"),
     {[ "MAX_JOB_RUNS_PARALLELISM" := VInt 1 ]})
  ∧ _fetch_settings_from_db corrupted_table
    = Ok {[ "MAX_JOB_RUNS_PARALLELISM" := VStr "5" ]}
  ∧ __init__ false uuid None corrupted_table = Raise (AttributeError "_path")
  ∧ is_ok (__init__ false uuid path corrupted_table) = false.
Proof.
  split; [reflexivity |]. split; [reflexivity |]. split; [reflexivity |].
  by destruct path.
Qed.

(** C3, on the code.  With migration and a parallelism of ["5"], the
    validator as the specification words it applies the condition to the
    default it has just stored and succeeds; the validator of the source
    applies it to the string it read first and raises. *)
Theorem condition_applied_to_given_val :
  validate_spec false uuid {[ "MAX_JOB_RUNS_PARALLELISM" := VStr "5" ]} true
  = (Ok (), {[ "MAX_JOB_RUNS_PARALLELISM" := VInt 1 ]})
  ∧ _validate_dict false uuid {[ "MAX_JOB_RUNS_PARALLELISM" := VStr "5" ]} true
    = (Raise (TypeError "'<' not supported between instances of 'int' and 'str'"),
       {[ "MAX_JOB_RUNS_PARALLELISM" := VInt 1 ]}).
Proof. split; reflexivity. Qed.

(** **** What the validator accepts, and what migration leaves *)

(** Every default of the table has the type of its entry and meets the
    entry's condition. *)
Lemma defaults_valid k val :
  (k, val) ∈ _config_values uuid →
  type_of (spec_default val) = spec_type val
  ∧ match spec_condition val with
    | None => True
    | Some condition => condition (spec_default val) = Ok true
    end.
Proof.
  unfold _config_values. intros Hin.
  repeat (apply elem_of_cons in Hin as [[= -> ->] | Hin]); try (by split).
  by apply elem_of_nil in Hin.
Qed.

(** A round that returns normally found the value in order and left
    [d] alone, or it migrated: the value was not in order, the key may be
    migrated, and [d] now has the default. *)
Lemma validate_item_ok_inv migrate k val v d d' :
  d !! k = Some v →
  validate_item cloud migrate k val v d = (Ok (), d') →
  (entry_valid d k val ∧ d' = d)
  ∨ (migrate = true ∧ not_allowed_to_migrate cloud k = false
     ∧ ¬ entry_valid d k val ∧ d' = <[k := spec_default val]> d).
Proof.
  intros Hd. unfold validate_item, entry_valid. rewrite Hd.
  case_bool_decide as Ht; simpl.
  - destruct (spec_condition val) as [c |].
    + destruct (c v) as [[|] | x] eqn:Hc.
      * intros [= <-]. by left.
      * destruct (negb migrate || not_allowed_to_migrate cloud k) eqn:Hn.
        { by destruct (spec_condition_msg val). }
        intros [= <-]. right. apply orb_false_iff in Hn as [Hm Hn].
        apply negb_false_iff in Hm. repeat split; try done.
        intros [_ ?]; discriminate.
      * discriminate.
    + intros [= <-]. by left.
  - destruct (negb migrate || not_allowed_to_migrate cloud k) eqn:Hn; [discriminate |].
    apply orb_false_iff in Hn as [Hm Hn]. apply negb_false_iff in Hm.
    assert (¬ (type_of v = spec_type val
               ∧ match spec_condition val with
                 | Some condition => condition v = Ok true
                 | None => True
                 end)) as Hinv by tauto.
    destruct (spec_condition val) as [c |].
    + destruct (c v) as [[|] | x]; [| | discriminate];
        rewrite ?Hm, ?Hn; simpl; intros [= <-]; right;
        rewrite ?insert_insert_eq; done.
    + intros [= <-]. by right.
Qed.

Lemma entry_valid_ext d d' k val :
  d' !! k = d !! k → entry_valid d' k val ↔ entry_valid d k val.
Proof. unfold entry_valid. by intros ->. Qed.

Lemma validate_items_ok_inv items migrate d d' :
  NoDup items.*1 →
  validate_items cloud items migrate d = (Ok (), d') →
  ∀ k val, (k, val) ∈ items →
    (entry_valid d k val ∧ d' !! k = d !! k)
    ∨ (migrate = true ∧ not_allowed_to_migrate cloud k = false
       ∧ ¬ entry_valid d k val ∧ d' !! k = Some (spec_default val)).
Proof.
  revert d. induction items as [| [k0 val0] items IH]; intros d Hnd Hv k val Hin.
  { by apply elem_of_nil in Hin. }
  simpl in Hnd, Hv. apply NoDup_cons in Hnd as [Hk0 Hnd].
  assert (∀ d1, validate_items cloud items migrate d1 = (Ok (), d') →
                d' !! k0 = d1 !! k0) as Hrest.
  { intros d1 H1. eapply validate_items_lookup; [exact H1 | by left]. }
  destruct (d !! k0) as [v0 |] eqn:Hd0.
  - destruct (validate_item cloud migrate k0 val0 v0 d) as [[[] | x] d1] eqn:Hi;
      [| discriminate].
    apply elem_of_cons in Hin as [[= -> ->] | Hin].
    + rewrite (Hrest d1 Hv).
      destruct (validate_item_ok_inv migrate k0 val0 v0 d d1 Hd0 Hi)
        as [[? ->] | (? & ? & ? & ->)]; [by left | right].
      by rewrite lookup_insert_eq.
    + assert (k ≠ k0) as Hne.
      { intros ->. apply Hk0. apply list_elem_of_fmap. by exists (k0, val). }
      assert (d1 !! k = d !! k) as Hsame.
      { eapply validate_item_lookup; [exact Hi | by left]. }
      destruct (IH d1 Hnd Hv k val Hin) as [[? ?] | (? & ? & ? & ?)].
      * left. split; [by apply (entry_valid_ext d d1 k val Hsame) | congruence].
      * right. repeat split; try done.
        by rewrite <- (entry_valid_ext d d1 k val Hsame).
  - apply elem_of_cons in Hin as [[= -> ->] | Hin].
    + left. split; [unfold entry_valid; by rewrite Hd0 | by apply Hrest].
    + by apply IH.
Qed.

(** X6.  Without migration the validator returns normally exactly when,
    under every key of the table that the candidate holds, the value has
    the type of the entry and meets its condition; and whatever the
    outcome, it leaves the candidate as it was. *)
Theorem validate_accepts_iff d :
  ((_validate_dict cloud uuid d false).1 = Ok ()
   ↔ Forall (λ kv, entry_valid d kv.1 kv.2) (_config_values uuid))
  ∧ (_validate_dict cloud uuid d false).2 = d.
Proof.
  split; [| apply validate_items_fail_mode]. unfold _validate_dict. split.
  - intros Hok. apply Forall_forall. intros [k val] Hin; simpl.
    pose proof (validate_items_fail_mode cloud (_config_values uuid) d) as Hsame.
    destruct (validate_items cloud (_config_values uuid) false d) as [r d'] eqn:Hv.
    simpl in *. subst r d'.
    by destruct (validate_items_ok_inv _ false d d config_values_keys_NoDup
                   Hv k val Hin) as [[? _] | (? & _)].
  - intros Hall. by rewrite (validate_items_valid cloud _ false d Hall).
Qed.

(** X7.  An integer parallelism outside 1..25 makes [update] raise the
    [ValueError] of the first entry of the table, whatever else the
    candidate holds, and the object is unchanged. *)
Theorem update_rejects_out_of_range self d n :
  d !! "MAX_JOB_RUNS_PARALLELISM" = Some (VInt n) →
  ¬ (1 ≤ n ≤ 25)%Z →
  update cloud uuid self d
  = (Raise (ValueError
              "MAX_JOB_RUNS_PARALLELISM has to be within the range [1, 25]."),
     self).
Proof.
  intros Hd Hn. unfold update, _validate_dict, _config_values; simpl.
  rewrite Hd. unfold validate_item, parallelism_condition; simpl.
  destruct (0 <? n)%Z eqn:H0; simpl.
  - destruct (n <=? 25)%Z eqn:H25; [| done]. lia.
  - done.
Qed.

(** X8.  When the validator with migration returns normally, the
    dictionary it leaves has the keys it had; each key of the table whose
    value was in order, and each key outside the table, has kept its
    value; each key of the table whose value was not in order holds the
    default of its entry; and the result is in order throughout, so the
    validator without migration accepts it. *)
Theorem migration_result d d' :
  _validate_dict cloud uuid d true = (Ok (), d') →
  dom d' = dom d
  ∧ (∀ k, k ∉ (_config_values uuid).*1 → d' !! k = d !! k)
  ∧ (∀ k val, (k, val) ∈ _config_values uuid →
       (entry_valid d k val → d' !! k = d !! k)
       ∧ (¬ entry_valid d k val → d' !! k = Some (spec_default val)))
  ∧ Forall (λ kv, entry_valid d' kv.1 kv.2) (_config_values uuid)
  ∧ _validate_dict cloud uuid d' false = (Ok (), d').
Proof.
  unfold _validate_dict. intros Hv.
  pose proof (validate_items_ok_inv _ true d d' config_values_keys_NoDup Hv) as Hinv.
  assert (∀ k, k ∉ (_config_values uuid).*1 → d' !! k = d !! k) as Hout.
  { intros k Hk. eapply validate_items_lookup; [exact Hv | by left]. }
  assert (Forall (λ kv, entry_valid d' kv.1 kv.2) (_config_values uuid)) as Hvalid.
  { apply Forall_forall. intros [k val] Hin; simpl.
    destruct (Hinv k val Hin) as [[Hok Hsame] | (_ & _ & _ & Hdef)].
    - by apply (entry_valid_ext d d' k val Hsame).
    - unfold entry_valid. rewrite Hdef. apply (defaults_valid k val Hin). }
  split; [| split; [done | split; [| split; [done |]]]].
  - apply set_eq. intros k. rewrite !elem_of_dom.
    destruct (decide (k ∈ (_config_values uuid).*1)) as [Hk | Hk];
      [| by rewrite (Hout k Hk)].
    apply list_elem_of_fmap in Hk as ([k' val] & -> & Hin); simpl.
    destruct (Hinv k' val Hin) as [[_ ->] | (_ & _ & Hbad & ->)]; [done |].
    split; [| by eauto]. intros _. unfold entry_valid in Hbad.
    destruct (d !! k'); [by eauto | tauto].
  - intros k val Hin.
    destruct (Hinv k val Hin) as [[Hok Hsame] | (_ & _ & Hbad & Hdef)];
      split; tauto.
  - by apply validate_items_valid.
Qed.

(** In cloud mode the validator never migrates a setting that cannot be
    changed: when it returns normally, with or without migration, each
    such key holds what it held, and that value was in order. *)
Lemma validate_keeps_locked migrate d d' k val :
  cloud = true →
  k ∈ _cloud_unmodifiable_config_opts →
  (k, val) ∈ _config_values uuid →
  _validate_dict cloud uuid d migrate = (Ok (), d') →
  d' !! k = d !! k ∧ entry_valid d k val.
Proof.
  intros Hcloud Hk Hin Hv. unfold _validate_dict in Hv.
  destruct (validate_items_ok_inv _ migrate d d' config_values_keys_NoDup
              Hv k val Hin) as [[? ?] | (_ & Hn & _)]; [done |].
  unfold not_allowed_to_migrate in Hn.
  by rewrite Hcloud, (bool_decide_eq_true_2 _ Hk) in Hn.
Qed.

(** X9.  In cloud mode, take a setting that cannot be changed and that
    the table of settings holds.  If [__init__] succeeds, the object has
    the stored value, untouched, in [maps[0]] and in [maps[1]], and that
    value was in order; a stored value that is not in order, such as an
    AUTH_ENABLED of the wrong type, makes [__init__] fail instead of
    being put back to its default. *)
Theorem init_keeps_or_rejects_locked table fetched k val v :
  cloud = true →
  k ∈ _cloud_unmodifiable_config_opts →
  (k, val) ∈ _config_values uuid →
  _fetch_settings_from_db table = Ok fetched →
  fetched !! k = Some v →
  (∀ self0, __init__ cloud uuid path table = Ok self0 →
            maps_0 self0 !! k = Some v ∧ maps_1 self0 !! k = Some v
            ∧ entry_valid fetched k val)
  ∧ (¬ entry_valid fetched k val →
     is_ok (__init__ cloud uuid path table) = false).
Proof.
  intros Hcloud Hk Hin Hf Hv.
  assert (∀ self0, __init__ cloud uuid path table = Ok self0 →
                   maps_0 self0 !! k = Some v ∧ maps_1 self0 !! k = Some v
                   ∧ entry_valid fetched k val) as Hok.
  { intros self0 Hinit.
    destruct (init_inv table self0 Hinit) as (fetched' & cur & Hf' & Hval & ->).
    assert (fetched' = fetched) as -> by congruence.
    destruct (validate_keeps_locked true fetched cur k val Hcloud Hk Hin Hval)
      as [Hsame Hvalid].
    simpl. rewrite Hcloud, copy_unmodifiable_lookup, (bool_decide_eq_true_2 _ Hk).
    by rewrite Hsame, Hv. }
  split; [done |]. intros Hbad.
  destruct (__init__ cloud uuid path table) as [self0 | x] eqn:Hinit; [| done].
  by destruct (Hok self0 eq_refl) as (_ & _ & ?).
Qed.

(** **** What every settings object satisfies *)

Lemma validate_ok_valid d :
  (_validate_dict cloud uuid d false).1 = Ok () →
  Forall (λ kv, entry_valid d kv.1 kv.2) (_config_values uuid)
  ∧ _validate_dict cloud uuid d false = (Ok (), d).
Proof.
  intros Hok. unfold _validate_dict in *.
  pose proof (validate_items_fail_mode cloud (_config_values uuid) d) as Hsame.
  destruct (validate_items cloud (_config_values uuid) false d) as [r d'] eqn:Hv.
  simpl in *. subst r d'. split; [| done].
  apply Forall_forall. intros [k val] Hin; simpl.
  by destruct (validate_items_ok_inv _ false d d config_values_keys_NoDup
                 Hv k val Hin) as [[? _] | (? & _)].
Qed.

Lemma entry_valid_union d1 d2 k val :
  entry_valid d1 k val → entry_valid d2 k val → entry_valid (d1 ∪ d2) k val.
Proof.
  unfold entry_valid. rewrite lookup_union.
  destruct (d1 !! k), (d2 !! k); simpl; tauto.
Qed.

Lemma valid_union d1 d2 :
  Forall (λ kv, entry_valid d1 kv.1 kv.2) (_config_values uuid) →
  Forall (λ kv, entry_valid d2 kv.1 kv.2) (_config_values uuid) →
  Forall (λ kv, entry_valid (d1 ∪ d2) kv.1 kv.2) (_config_values uuid).
Proof.
  rewrite !Forall_forall. intros H1 H2 kv Hin.
  apply entry_valid_union; [by apply H1 | by apply H2].
Qed.

Lemma defaults_all_valid :
  Forall (λ kv, entry_valid (defaults uuid) kv.1 kv.2) (_config_values uuid).
Proof.
  apply Forall_forall. intros [k val] Hin; simpl. unfold entry_valid.
  rewrite (defaults_lookup k val Hin). apply (defaults_valid k val Hin).
Qed.

Lemma defaults_lookup_None k :
  k ∉ (_config_values uuid).*1 → defaults uuid !! k = None.
Proof.
  unfold _config_values, defaults; simpl. rewrite !not_elem_of_cons.
  intros (? & ? & ? & ? & ? & ? & _).
  by rewrite !lookup_insert_ne, lookup_empty.
Qed.

(** The three dictionaries of an object are in order, the third is the
    defaults, and the first holds unmodifiable keys only. *)
Definition settings_inv self : Prop :=
  Forall (λ kv, entry_valid (maps_0 self) kv.1 kv.2) (_config_values uuid)
  ∧ Forall (λ kv, entry_valid (maps_1 self) kv.1 kv.2) (_config_values uuid)
  ∧ maps_2 self = defaults uuid
  ∧ ∀ k, is_Some (maps_0 self !! k) → k ∈ _cloud_unmodifiable_config_opts.

Lemma init_settings_inv table self0 :
  __init__ cloud uuid path table = Ok self0 → settings_inv self0.
Proof.
  intros Hinit.
  destruct (init_inv table self0 Hinit) as (fetched & cur & _ & Hval & ->).
  assert (Forall (λ kv, entry_valid cur kv.1 kv.2) (_config_values uuid)) as Hcur.
  { unfold _validate_dict in Hval. apply Forall_forall. intros [k val] Hin; simpl.
    destruct (validate_items_ok_inv _ true fetched cur config_values_keys_NoDup
                Hval k val Hin) as [[Hok Hsame] | (_ & _ & _ & Hdef)].
    - by apply (entry_valid_ext fetched cur k val Hsame).
    - unfold entry_valid. rewrite Hdef. apply (defaults_valid k val Hin). }
  unfold settings_inv; simpl. split; [| split; [done | split; [done |]]].
  - destruct cloud.
    + apply Forall_forall. intros [k val] Hin; simpl.
      rewrite Forall_forall in Hcur. specialize (Hcur (k, val) Hin); simpl in Hcur.
      unfold entry_valid in *. rewrite copy_unmodifiable_lookup.
      by destruct (bool_decide _).
    + apply Forall_forall. intros [k val] _; simpl.
      unfold entry_valid. by rewrite lookup_empty.
  - intros k. destruct cloud.
    + rewrite copy_unmodifiable_lookup. case_bool_decide; [done |].
      by intros [? ?].
    + rewrite lookup_empty. by intros [? ?].
Qed.

Lemma after_calls_settings_inv self rs :
  settings_inv self → settings_inv (after_calls cloud uuid self rs).
Proof.
  revert self. induction rs as [| r rs IH]; intros self Hinv; [done |].
  simpl. apply IH. destruct Hinv as (H0 & H1 & H2 & H3).
  destruct r as [d | d]; unfold after_call, update, set;
    destruct (_validate_dict cloud uuid d false) as [[[] | x] d'] eqn:Hv;
    simpl; try done;
    destruct (validate_ok_valid d) as [Hd Hsame]; try (by rewrite Hv);
    rewrite Hv in Hsame; injection Hsame as ->;
    (split; [done | split; [| by split]]); [by apply valid_union | done].
Qed.

Lemma as_dict_valid self :
  settings_inv self →
  Forall (λ kv, entry_valid (as_dict self) kv.1 kv.2) (_config_values uuid).
Proof.
  intros (H0 & H1 & H2 & _). unfold as_dict.
  apply valid_union; [done |]. apply valid_union; [done |].
  rewrite H2. apply defaults_all_valid.
Qed.

(** X10.  Saving and building anew: for an object built by [__init__]
    and put through any calls of [update] and [set], [__init__] on the
    table that [save] leaves succeeds, and the new object has the same
    settings: its [as_dict] is the old one, which is also what its
    [maps[1]] holds.  In cloud mode its [maps[0]] has all of the
    unmodifiable keys, those too that sat at their defaults; outside
    cloud mode it is empty. *)
Theorem save_then_init table self0 rs tbl flask_app :
  __init__ cloud uuid path table = Ok self0 →
  let self := after_calls cloud uuid self0 rs in
  let saved := (save cloud uuid self tbl flask_app).2 in
  ∃ self', __init__ cloud uuid path saved = Ok self'
           ∧ as_dict self' = as_dict self
           ∧ maps_1 self' = as_dict self
           ∧ (∀ k, is_Some (maps_0 self' !! k)
                   ↔ cloud = true ∧ k ∈ _cloud_unmodifiable_config_opts).
Proof.
  intros Hinit self saved.
  assert (settings_inv self) as Hinv.
  { apply after_calls_settings_inv. by eapply init_settings_inv. }
  pose proof (as_dict_valid self Hinv) as Hvalid.
  destruct Hinv as (_ & _ & H2 & _).
  assert (saved = (λ v, {[ "value" := v ]}) <$> as_dict self) as ->.
  { apply save_table_wrapped. }
  unfold __init__, _get_current_configs. rewrite fetch_wrapped; simpl.
  unfold _validate_dict. rewrite (validate_items_valid cloud _ true _ Hvalid); simpl.
  eexists. split; [done |]. simpl.
  assert (∀ k, (if cloud then copy_unmodifiable (as_dict self) else ∅) !! k
               = if cloud && bool_decide (k ∈ _cloud_unmodifiable_config_opts)
                 then as_dict self !! k else None) as Hm0.
  { intros k. destruct cloud; simpl; [apply copy_unmodifiable_lookup |].
    apply lookup_empty. }
  split; [| split; [done |]].
  - unfold as_dict at 1; simpl. apply map_eq. intros k.
    rewrite !lookup_union, Hm0.
    assert (as_dict self !! k = None → defaults uuid !! k = None) as Hnone.
    { unfold as_dict. rewrite !lookup_union, H2.
      destruct (maps_0 self !! k), (maps_1 self !! k), (defaults uuid !! k);
        simpl; done. }
    destruct (as_dict self !! k) as [v |] eqn:Hk.
    + destruct (cloud && bool_decide _); by rewrite ?union_Some_l.
    + rewrite (Hnone eq_refl). by destruct (cloud && bool_decide _).
  - intros k. rewrite Hm0. destruct cloud; simpl.
    + case_bool_decide as Hk.
      * split; [done |]. intros _.
        apply unmodifiable_opts_in_table, list_elem_of_fmap in Hk
          as ([k' val] & -> & Hin); simpl.
        unfold as_dict. rewrite !lookup_union, H2, (defaults_lookup k' val Hin).
        destruct (maps_0 self !! k'), (maps_1 self !! k'); by eexists.
      * split; [by intros [? ?] | tauto].
    + split; [by intros [? ?] | by intros [? _]].
Qed.

(** **** No change, no restart *)

Lemma py_eq_refl v : py_eq v v = true.
Proof.
  revert v. fix IH 1. intros [| b | n | s | l]; simpl.
  - done.
  - by apply bool_decide_eq_true.
  - apply Z.eqb_refl.
  - by apply bool_decide_eq_true.
  - induction l as [| x l IHl]; [done |]. by rewrite (IH x), IHl.
Qed.

(** X11.  When the new settings are the running configuration itself,
    no restart is reported: a value is never [!=] to itself.  So [save]
    with the configuration equal to [as_dict] returns the empty list. *)
Theorem unchanged_needs_no_restart (config : gmap string pyval) self table :
  _changes_require_restart cloud uuid config config = []
  ∧ (save cloud uuid self table (Some (as_dict self))).1 = Some [].
Proof.
  assert (∀ c : gmap string pyval, _changes_require_restart cloud uuid c c = [])
    as Hsame.
  { intros c. unfold _changes_require_restart. rewrite changed_items_filter; simpl.
    induction (_config_values uuid) as [| [k val] items IH]; [done |].
    rewrite filter_cons; simpl.
    assert (restart_needed cloud c c k val = false) as ->.
    { unfold restart_needed.
      destruct (spec_requires_restart val); [| done]. simpl.
      destruct (not_allowed_to_migrate cloud k); [done |].
      destruct (c !! k) as [v |]; [| done]. simpl.
      destruct v; try done; unfold py_ne; by rewrite py_eq_refl. }
    destruct (decide (false = true)); [discriminate | exact IH]. }
  split; [apply Hsame |]. unfold save; simpl. by rewrite Hsame.
Qed.

(** **** Rows without a value *)

Lemma fetch_rows_missing (l : list (string * gmap string pyval)) acc :
  Exists (λ row, row.2 !! "value" = None) l →
  fetch_rows l acc = Raise (KeyError "value").
Proof.
  revert acc. induction l as [| [name value] l IH]; intros acc Hex.
  { by apply Exists_nil in Hex. }
  simpl. destruct (value !! "value") as [v |] eqn:Hv; [| done].
  apply IH. apply Exists_cons in Hex as [Hex | Hex]; [| done].
  simpl in Hex. congruence.
Qed.

(** X12.  [_fetch_settings_from_db] succeeds exactly when the JSON
    object of every row has the key ["value"]; it then gives the setting
    of each row under the row's name.  A row without the key makes it
    raise [KeyError], and [__init__] with it. *)
Theorem fetch_settings_needs_value table :
  ((∀ name row, table !! name = Some row → is_Some (row !! "value")) →
   ∃ settings, _fetch_settings_from_db table = Ok settings
               ∧ ∀ k, settings !! k = table !! k ≫= (.!! "value"))
  ∧ (∀ name row, table !! name = Some row → row !! "value" = None →
       _fetch_settings_from_db table = Raise (KeyError "value")
       ∧ __init__ cloud uuid path table = Raise (KeyError "value")).
Proof.
  split; [apply fetch_settings_spec |].
  intros name row Hrow Hnone.
  assert (_fetch_settings_from_db table = Raise (KeyError "value")) as Hf.
  { unfold _fetch_settings_from_db. apply fetch_rows_missing.
    apply Exists_exists. exists (name, row). split; [| done].
    by apply elem_of_map_to_list. }
  split; [done |]. unfold __init__, _get_current_configs. by rewrite Hf.
Qed.

(** **** Which keys a lookup knows *)

(** X13.  For an object built by [__init__] and put through any calls
    of [update] and [set]: the keys of [as_dict] are the keys of the
    table together with the keys of [maps[1]]; a lookup of any other key
    raises [KeyError] with that key. *)
Theorem getitem_unknown_key table self0 rs :
  __init__ cloud uuid path table = Ok self0 →
  let self := after_calls cloud uuid self0 rs in
  (∀ k, is_Some (as_dict self !! k)
        ↔ k ∈ (_config_values uuid).*1 ∨ is_Some (maps_1 self !! k))
  ∧ (∀ k, k ∉ (_config_values uuid).*1 → maps_1 self !! k = None →
          __getitem__ self k = Raise (KeyError k)).
Proof.
  intros Hinit self.
  assert (settings_inv self) as (_ & _ & H2 & H0).
  { apply after_calls_settings_inv. by eapply init_settings_inv. }
  assert (∀ k, k ∉ (_config_values uuid).*1 → maps_0 self !! k = None) as Hout.
  { intros k Hk. destruct (maps_0 self !! k) as [v |] eqn:Hv; [| done].
    exfalso. apply Hk, unmodifiable_opts_in_table, H0. by eexists. }
  split.
  - intros k. unfold as_dict. rewrite !lookup_union, H2.
    destruct (decide (k ∈ (_config_values uuid).*1)) as [Hk | Hk].
    + split; [by left |]. intros _.
      apply list_elem_of_fmap in Hk as ([k' val] & -> & Hin); simpl.
      rewrite (defaults_lookup k' val Hin).
      destruct (maps_0 self !! k'), (maps_1 self !! k'); by eexists.
    + rewrite (Hout k Hk), (defaults_lookup_None k Hk).
      destruct (maps_1 self !! k); simpl; [split; eauto |].
      split; [by intros [? ?] | by intros [? | [? ?]]].
  - intros k Hk H1. unfold __getitem__.
    by rewrite (Hout k Hk), H1, H2, (defaults_lookup_None k Hk).
Qed.

(** **** How the calls compose *)

(** X14.  Two [update]s with candidates the validator accepts come to
    one [update] with the second candidate laid over the first. *)
Theorem update_twice self d1 d2 :
  (_validate_dict cloud uuid d1 false).1 = Ok () →
  (_validate_dict cloud uuid d2 false).1 = Ok () →
  update cloud uuid (update cloud uuid self d1).2 d2
  = update cloud uuid self (d2 ∪ d1)
  ∧ (update cloud uuid self (d2 ∪ d1)).1 = Ok ().
Proof.
  intros H1 H2.
  destruct (validate_ok_valid d1 H1) as [Hv1 E1].
  destruct (validate_ok_valid d2 H2) as [Hv2 E2].
  pose proof (valid_union d2 d1 Hv2 Hv1) as Hv.
  assert (_validate_dict cloud uuid (d2 ∪ d1) false = (Ok (), d2 ∪ d1)) as E.
  { unfold _validate_dict. by apply validate_items_valid. }
  unfold update. rewrite E1, E2, E; simpl. by rewrite (assoc_L (∪)).
Qed.

(** X15.  A [set] with a candidate the validator accepts forgets every
    earlier [update] and [set]: the object is the one [set] alone would
    have given, its [maps[1]] is the candidate, and [as_dict] is laid
    together from [maps[0]], the candidate and the defaults. *)
Theorem set_replaces self rs d :
  (_validate_dict cloud uuid d false).1 = Ok () →
  let self' := (set cloud uuid (after_calls cloud uuid self rs) d).2 in
  self' = (set cloud uuid self d).2
  ∧ (set cloud uuid (after_calls cloud uuid self rs) d).1 = Ok ()
  ∧ maps_1 self' = d
  ∧ as_dict self' = maps_0 self ∪ (d ∪ maps_2 self).
Proof.
  intros Hok self'. subst self'.
  destruct (validate_ok_valid d Hok) as [_ E].
  destruct (after_calls_maps self rs) as [H0 H2].
  unfold set, as_dict. rewrite E; simpl. by rewrite H0, H2.
Qed.

Lemma migrate_ok_valid d d' :
  _validate_dict cloud uuid d true = (Ok (), d') →
  Forall (λ kv, entry_valid d' kv.1 kv.2) (_config_values uuid).
Proof.
  unfold _validate_dict. intros Hv. apply Forall_forall. intros [k val] Hin; simpl.
  destruct (validate_items_ok_inv _ true d d' config_values_keys_NoDup
              Hv k val Hin) as [[Hok Hsame] | (_ & _ & _ & Hdef)].
  - by apply (entry_valid_ext d d' k val Hsame).
  - unfold entry_valid. rewrite Hdef. apply (defaults_valid k val Hin).
Qed.

(** X21.  Migration is idempotent: the dictionary that the validator
    with migration leaves passes the validator again, with or without
    migration, and is not changed by it. *)
Theorem migration_is_idempotent d d' migrate :
  _validate_dict cloud uuid d true = (Ok (), d') →
  _validate_dict cloud uuid d' migrate = (Ok (), d').
Proof.
  intros Hv. unfold _validate_dict.
  apply validate_items_valid. by eapply migrate_ok_valid.
Qed.

(** X22.  After an [update] with a candidate the validator accepts, a
    lookup of a key of the candidate gives the candidate's value, unless
    [maps[0]] holds the key, and a lookup of any other key gives what it
    gave before. *)
Theorem update_then_getitem self d :
  (_validate_dict cloud uuid d false).1 = Ok () →
  let self' := (update cloud uuid self d).2 in
  (∀ k v, d !! k = Some v → maps_0 self !! k = None →
          __getitem__ self' k = Ok v)
  ∧ (∀ k v, maps_0 self !! k = Some v → __getitem__ self' k = Ok v)
  ∧ (∀ k, d !! k = None → __getitem__ self' k = __getitem__ self k).
Proof.
  intros Hok self'. subst self'.
  destruct (validate_ok_valid d Hok) as [_ E].
  unfold update. rewrite E; simpl. unfold __getitem__; simpl.
  split; [| split].
  - intros k v Hd H0. by rewrite H0, (lookup_union_Some_l d _ k v Hd).
  - intros k v H0. by rewrite H0.
  - intros k Hd. by rewrite (lookup_union_r d _ k Hd).
Qed.

End SettingsProps.

(** *** The settings object on the samples *)

Lemma update_rejects_wrong_type_witness :
  let d : gmap string pyval :=
    {[ "MAX_JOB_RUNS_PARALLELISM" := VInt 3; "AUTH_ENABLED" := VStr "yes" ]} in
  (∃ e, update false sample_uuid stored_settings d = (Raise e, stored_settings)
        ∧ _validate_dict false sample_uuid d false = (Raise e, d))
  ∧ update false sample_uuid stored_settings d
    = (Raise (TypeError (mismatch_message "AUTH_ENABLED" Bool Str)),
       stored_settings).
Proof.
  intros d.
  destruct (update_rejects_wrong_type false sample_uuid stored_settings d
              "AUTH_ENABLED" (mk_spec (VBool false) Bool true None None)
              (VStr "yes")) as [Hraise Hfirst].
  - unfold _config_values. rewrite !elem_of_cons. tauto.
  - reflexivity.
  - discriminate.
  - split; [exact Hraise |].
    apply (Hfirst (take 2 (_config_values sample_uuid))
                  (drop 3 (_config_values sample_uuid))).
    + reflexivity.
    + repeat constructor; by vm_compute.
Defined.

(** The example of the specification, and a candidate with two faults:
    the fault of the earlier entry is the one reported. *)
Example update_string_parallelism :
  update false sample_uuid stored_settings
    {[ "MAX_JOB_RUNS_PARALLELISM" := VStr "5" ]}
  = (Raise (TypeError (mismatch_message "MAX_JOB_RUNS_PARALLELISM" Int Str)),
     stored_settings)
  ∧ update false sample_uuid stored_settings
      {[ "MAX_JOB_RUNS_PARALLELISM" := VInt 0; "AUTH_ENABLED" := VStr "yes" ]}
    = (Raise (ValueError
                "MAX_JOB_RUNS_PARALLELISM has to be within the range [1, 25]."),
       stored_settings).
Proof. split; reflexivity. Qed.

Lemma lookup_order_witness :
  let self := after_calls true sample_uuid stored_settings_cloud
                [CallUpdate {[ "AUTH_ENABLED" := VBool false ]}] in
  maps_1 self !! "AUTH_ENABLED" = Some (VBool false)
  ∧ __getitem__ self "AUTH_ENABLED" = Ok (VBool true)
  ∧ __getitem__ self "MAX_JOB_RUNS_PARALLELISM" = Ok (VInt 4)
  ∧ __getitem__ self "TELEMETRY_DISABLED" = Ok (VBool false).
Proof.
  intros self.
  destruct (lookup_order true sample_uuid None stored_table stored_settings_cloud
              [CallUpdate {[ "AUTH_ENABLED" := VBool false ]}])
    as (_ & Hstored & Hdefault & _ & Hlocked).
  - reflexivity.
  - split; [reflexivity |]. split; [| split].
    + apply (Hlocked {[ "MAX_JOB_RUNS_PARALLELISM" := VInt 4;
                        "AUTH_ENABLED" := VBool true;
                        "OLD_KEY" := VStr "stale" ]});
        [reflexivity | | reflexivity | reflexivity].
      unfold _cloud_unmodifiable_config_opts. rewrite !elem_of_cons. tauto.
    + apply Hstored; reflexivity.
    + apply (Hdefault "TELEMETRY_DISABLED" (mk_spec (VBool false) Bool true None None));
        [| reflexivity | reflexivity].
      unfold _config_values. rewrite !elem_of_cons. tauto.
Defined.

(** A locked key that the table of settings did not hold when the object
    was built is not in [maps[0]]: an [update] sets it. *)
Example unstored_locked_key_is_settable :
  __init__ true sample_uuid None ∅ = Ok (mk_settings ∅ ∅ (defaults sample_uuid))
  ∧ __getitem__ (mk_settings ∅ ∅ (defaults sample_uuid)) "AUTH_ENABLED"
    = Ok (VBool false)
  ∧ __getitem__
      (after_calls true sample_uuid (mk_settings ∅ ∅ (defaults sample_uuid))
         [CallUpdate {[ "AUTH_ENABLED" := VBool true ]}]) "AUTH_ENABLED"
    = Ok (VBool true).
Proof. repeat split; reflexivity. Qed.

(** The examples of the specification for the restart report, and the
    same change in cloud mode, where AUTH_ENABLED is left out. *)
Example restart_report :
  _changes_require_restart false sample_uuid
    {[ "AUTH_ENABLED" := VBool false ]} {[ "AUTH_ENABLED" := VBool true ]}
  = ["AUTH_ENABLED"]
  ∧ _changes_require_restart false sample_uuid
      {[ "AUTH_ENABLED" := VBool true ]} {[ "AUTH_ENABLED" := VBool true ]}
    = []
  ∧ _changes_require_restart true sample_uuid
      {[ "AUTH_ENABLED" := VBool false ]} {[ "AUTH_ENABLED" := VBool true ]}
    = []
  ∧ _changes_require_restart false sample_uuid
      {[ "AUTH_ENABLED" := VBool false; "MAX_JOB_RUNS_PARALLELISM" := VInt 1 ]}
      {[ "AUTH_ENABLED" := VBool true; "MAX_JOB_RUNS_PARALLELISM" := VInt 2 ]}
    = ["MAX_JOB_RUNS_PARALLELISM"; "AUTH_ENABLED"].
Proof. repeat split; reflexivity. Qed.

(** [save] after the stored settings were replaced by a dictionary
    without OLD_KEY: the row is gone.  Without the replacement OLD_KEY is
    one of the settings of the object, and [save] writes it again. *)
Example save_prunes_old_key :
  let replaced := (set false sample_uuid stored_settings
                     {[ "MAX_JOB_RUNS_PARALLELISM" := VInt 2 ]}).2 in
  (save false sample_uuid replaced stored_table None).2 !! "OLD_KEY" = None
  ∧ (save false sample_uuid replaced stored_table None).2
      !! "MAX_JOB_RUNS_PARALLELISM" = Some {[ "value" := VInt 2 ]}
  ∧ (save false sample_uuid stored_settings stored_table None).2 !! "OLD_KEY"
    = Some {[ "value" := VStr "stale" ]}.
Proof. repeat split; reflexivity. Qed.

Lemma unknown_key_accepted_witness :
  let d : gmap string pyval :=
    {[ "EXPERIMENTAL" := VList [VInt 1; VStr "x"];
       "MAX_JOB_RUNS_PARALLELISM" := VInt 8 ]} in
  let self' := (update false sample_uuid stored_settings d).2 in
  (update false sample_uuid stored_settings d).1 = Ok ()
  ∧ (set false sample_uuid stored_settings d).1 = Ok ()
  ∧ __getitem__ self' "EXPERIMENTAL" = Ok (VList [VInt 1; VStr "x"])
  ∧ as_dict self' !! "EXPERIMENTAL" = Some (VList [VInt 1; VStr "x"])
  ∧ (save false sample_uuid self' stored_table None).2 !! "EXPERIMENTAL"
    = Some {[ "value" := VList [VInt 1; VStr "x"] ]}.
Proof.
  intros d self'.
  destruct (unknown_key_accepted false sample_uuid None stored_table
              stored_settings [] d "EXPERIMENTAL" (VList [VInt 1; VStr "x"]))
    as (_ & Hupdate & Hset & Hafter).
  - reflexivity.
  - rewrite list_elem_of_In; simpl. intuition discriminate.
  - reflexivity.
  - reflexivity.
  - destruct (Hafter self') as (_ & Hget & Hdict & _ & Hsave); [by left |].
    split; [exact Hupdate |]. split; [exact Hset |]. split; [exact Hget |].
    split; [exact Hdict |]. apply Hsave.
Defined.

Lemma update_rejects_out_of_range_witness :
  update false sample_uuid stored_settings
    {[ "MAX_JOB_RUNS_PARALLELISM" := VInt 26; "AUTH_ENABLED" := VBool true ]}
  = (Raise (ValueError
              "MAX_JOB_RUNS_PARALLELISM has to be within the range [1, 25]."),
     stored_settings).
Proof.
  apply (update_rejects_out_of_range false sample_uuid stored_settings _ 26).
  - reflexivity.
  - lia.
Defined.

(** The bounds of the range are accepted. *)
Example update_accepts_bounds :
  (update false sample_uuid stored_settings
     {[ "MAX_JOB_RUNS_PARALLELISM" := VInt 1 ]}).1 = Ok ()
  ∧ (update false sample_uuid stored_settings
       {[ "MAX_JOB_RUNS_PARALLELISM" := VInt 25 ]}).1 = Ok ().
Proof. split; reflexivity. Qed.

Lemma migration_result_witness :
  let d : gmap string pyval :=
    {[ "MAX_JOB_RUNS_PARALLELISM" := VBool true;
       "MAX_INTERACTIVE_RUNS_PARALLELISM" := VInt 30;
       "AUTH_ENABLED" := VBool true; "OLD_KEY" := VStr "stale" ]} in
  let d' : gmap string pyval :=
    {[ "MAX_JOB_RUNS_PARALLELISM" := VInt 1;
       "MAX_INTERACTIVE_RUNS_PARALLELISM" := VInt 1;
       "AUTH_ENABLED" := VBool true; "OLD_KEY" := VStr "stale" ]} in
  dom d' = dom d
  ∧ d' !! "OLD_KEY" = d !! "OLD_KEY"
  ∧ _validate_dict false sample_uuid d' false = (Ok (), d').
Proof.
  intros d d'.
  destruct (migration_result false sample_uuid d d') as (Hdom & Hout & _ & _ & Hok).
  - reflexivity.
  - split; [exact Hdom |]. split; [| exact Hok].
    apply Hout. rewrite list_elem_of_In; simpl. intuition discriminate.
Defined.

Lemma init_keeps_or_rejects_locked_witness :
  (∀ self0, __init__ true sample_uuid None stored_table = Ok self0 →
            maps_0 self0 !! "AUTH_ENABLED" = Some (VBool true)
            ∧ maps_1 self0 !! "AUTH_ENABLED" = Some (VBool true)
            ∧ entry_valid (maps_1 stored_settings_cloud) "AUTH_ENABLED"
                (mk_spec (VBool false) Bool true None None))
  ∧ is_ok (__init__ true sample_uuid None
             {[ "AUTH_ENABLED" := {[ "value" := VStr "yes" ]} ]}) = false.
Proof.
  split.
  - apply (init_keeps_or_rejects_locked true sample_uuid None stored_table
             (maps_1 stored_settings_cloud) "AUTH_ENABLED"
             (mk_spec (VBool false) Bool true None None) (VBool true));
      try reflexivity.
    + unfold _cloud_unmodifiable_config_opts. rewrite !elem_of_cons. tauto.
    + unfold _config_values. rewrite !elem_of_cons. tauto.
  - apply (init_keeps_or_rejects_locked true sample_uuid None
             {[ "AUTH_ENABLED" := {[ "value" := VStr "yes" ]} ]}
             {[ "AUTH_ENABLED" := VStr "yes" ]} "AUTH_ENABLED"
             (mk_spec (VBool false) Bool true None None) (VStr "yes"));
      try reflexivity.
    + unfold _cloud_unmodifiable_config_opts. rewrite !elem_of_cons. tauto.
    + unfold _config_values. rewrite !elem_of_cons. tauto.
    + by intros [? _].
Defined.

Lemma save_then_init_witness :
  let self := after_calls true sample_uuid stored_settings_cloud
                [CallUpdate {[ "MAX_JOB_RUNS_PARALLELISM" := VInt 7 ]}] in
  let saved := (save true sample_uuid self stored_table None).2 in
  ∃ self', __init__ true sample_uuid None saved = Ok self'
           ∧ as_dict self' = as_dict self
           ∧ maps_1 self' = as_dict self
           ∧ (∀ k, is_Some (maps_0 self' !! k)
                   ↔ true = true ∧ k ∈ _cloud_unmodifiable_config_opts).
Proof.
  apply (save_then_init true sample_uuid None stored_table stored_settings_cloud).
  reflexivity.
Defined.

Lemma getitem_unknown_key_witness :
  __getitem__ (after_calls false sample_uuid stored_settings
                 [CallUpdate {[ "EXPERIMENTAL" := VInt 1 ]}]) "UNHEARD_OF"
  = Raise (KeyError "UNHEARD_OF").
Proof.
  destruct (getitem_unknown_key false sample_uuid None stored_table
              stored_settings [CallUpdate {[ "EXPERIMENTAL" := VInt 1 ]}])
    as [_ Hraise]; [reflexivity |].
  apply Hraise; [| reflexivity].
  rewrite list_elem_of_In; simpl. intuition discriminate.
Defined.

Lemma update_twice_witness :
  let d1 : gmap string pyval :=
    {[ "MAX_JOB_RUNS_PARALLELISM" := VInt 2; "AUTH_ENABLED" := VBool false ]} in
  let d2 : gmap string pyval := {[ "MAX_JOB_RUNS_PARALLELISM" := VInt 9 ]} in
  update false sample_uuid (update false sample_uuid stored_settings d1).2 d2
  = update false sample_uuid stored_settings (d2 ∪ d1)
  ∧ (update false sample_uuid stored_settings (d2 ∪ d1)).1 = Ok ().
Proof.
  apply (update_twice false sample_uuid); reflexivity.
Defined.

Lemma set_replaces_witness :
  let d : gmap string pyval := {[ "MAX_JOB_RUNS_PARALLELISM" := VInt 2 ]} in
  let rs := [CallUpdate {[ "AUTH_ENABLED" := VBool false ]};
             CallSet {[ "OLD_KEY" := VStr "kept" ]}] in
  let self' := (set true sample_uuid
                  (after_calls true sample_uuid stored_settings_cloud rs) d).2 in
  self' = (set true sample_uuid stored_settings_cloud d).2
  ∧ (set true sample_uuid
       (after_calls true sample_uuid stored_settings_cloud rs) d).1 = Ok ()
  ∧ maps_1 self' = d
  ∧ as_dict self'
    = maps_0 stored_settings_cloud ∪ (d ∪ maps_2 stored_settings_cloud).
Proof.
  apply (set_replaces true sample_uuid stored_settings_cloud). reflexivity.
Defined.

Lemma migration_is_idempotent_witness :
  let d' : gmap string pyval :=
    {[ "MAX_JOB_RUNS_PARALLELISM" := VInt 1; "AUTH_ENABLED" := VBool false ]} in
  _validate_dict false sample_uuid d' true = (Ok (), d').
Proof.
  apply (migration_is_idempotent false sample_uuid
           {[ "MAX_JOB_RUNS_PARALLELISM" := VInt 40; "AUTH_ENABLED" := VInt 1 ]}).
  reflexivity.
Defined.

Lemma update_then_getitem_witness :
  let self' := (update true sample_uuid stored_settings_cloud
                  {[ "MAX_JOB_RUNS_PARALLELISM" := VInt 9;
                     "AUTH_ENABLED" := VBool false ]}).2 in
  __getitem__ self' "MAX_JOB_RUNS_PARALLELISM" = Ok (VInt 9)
  ∧ __getitem__ self' "AUTH_ENABLED" = Ok (VBool true)
  ∧ __getitem__ self' "OLD_KEY" = Ok (VStr "stale").
Proof.
  intros self'.
  destruct (update_then_getitem true sample_uuid stored_settings_cloud
              {[ "MAX_JOB_RUNS_PARALLELISM" := VInt 9;
                 "AUTH_ENABLED" := VBool false ]})
    as (Hnew & Hlocked & Hold); [reflexivity |].
  split; [by apply Hnew |]. split; [by apply Hlocked |].
  by rewrite Hold.
Defined.

End Settings.

(** ** Waiting for a pod *)

Module Pods.

(** What a call of [k8s_core_api.read_namespaced_pod] can come to: an
    [ApiException] with its [status] ([None] when it carries no HTTP
    status), or the pod, of which the loop reads [status.phase]. *)
Inductive response : Type :=
| ApiException (status : option Z)
| Pod (phase : option string).

(** The exceptions that leave [wait_for_pod_status]: the [TypeError] of
    [None - 1], an [ApiException] other than a 404, and the error of the
    [else] branch of the loop. *)
Inductive pod_exn : Type :=
| NoneMinusInt
| ApiError (status : option Z)
| PodNeverReachedExpectedStatusError.

Inductive outcome : Type :=
| Returns
| Raises (e : pod_exn).

(** What the function has done so far: the calls of
    [read_namespaced_pod] and the seconds of [time.sleep]. *)
Record clock : Type := mk_clock { polls : nat; slept : nat }.

Section Wait.

(** The cluster, as the answer to each call of [read_namespaced_pod] for
    the given pod, the first call being call 0; and the argument
    [expected_statuses]. *)
Variable cluster : nat → response.
Variable expected_statuses : list string.

(** [status in expected_statuses]. *)
Definition expected (phase : option string) : bool :=
  match phase with
  | Some p => bool_decide (p ∈ expected_statuses)
  | None => false
  end.

(** The loop of lines 174-188 with [max_retries] a positive integer or
    zero: [retries] is the value of [max_retries] at the test of the
    [while].  A 404 sleeps in the handler and again at the end of the
    round; the [break] skips the sleep; the [else] of the [while] raises
    when the test fails. *)
Fixpoint poll (retries : nat) (st : clock) : outcome * clock :=
  match retries with
  | 0 => (Raises PodNeverReachedExpectedStatusError, st)
  | S retries =>
      match cluster (polls st) with
      | ApiException status =>
          if bool_decide (status ≠ Some 404%Z)
          then (Raises (ApiError status), mk_clock (S (polls st)) (slept st))
          else poll retries (mk_clock (S (polls st)) (slept st + 2))
      | Pod phase =>
          if expected phase
          then (Returns, mk_clock (S (polls st)) (slept st))
          else poll retries (mk_clock (S (polls st)) (slept st + 1))
      end
  end.

(** [wait_for_pod_status], lines 147-188.  With [max_retries] [None] the
    test of the [while] holds and the first statement of the body,
    [max_retries - 1], raises; an integer below 1 fails the test at
    once. *)
Definition wait_for_pod_status (max_retries : option Z) : outcome * clock :=
  match max_retries with
  | None => (Raises NoneMinusInt, mk_clock 0 0)
  | Some n => poll (Z.to_nat n) (mk_clock 0 0)
  end.

(** A call after which the loop goes on: a 404, or a pod in a phase that
    is not expected. *)
Definition goes_on (call : nat) : bool :=
  match cluster call with
  | ApiException status => bool_decide (status = Some 404%Z)
  | Pod phase => negb (expected phase)
  end.

(** The seconds slept over [count] calls from call [from] on, all of
    which let the loop go on. *)
Fixpoint sleeps (from count : nat) : nat :=
  match count with
  | 0 => 0
  | S count =>
      match cluster from with
      | ApiException _ => 2
      | Pod _ => 1
      end + sleeps (S from) count
  end.

(** How a call that ends the loop ends it. *)
Definition ends (call : nat) (o : outcome) : Prop :=
  match cluster call with
  | ApiException status => status ≠ Some 404%Z ∧ o = Raises (ApiError status)
  | Pod phase => expected phase = true ∧ o = Returns
  end.

End Wait.

(** *** A sample cluster

    The pod does not exist at the first call, is Pending at the next two
    and Running from then on. *)
Definition starting_cluster (call : nat) : response :=
  match call with
  | 0 => ApiException (Some 404%Z)
  | 1 | 2 => Pod (Some "Pending")
  | _ => Pod (Some "Running")
  end.

(** *** Properties of the wait *)

Section WaitProps.

Variable cluster : nat → response.
Variable expected_statuses : list string.

Lemma sleeps_bounds from count :
  count ≤ sleeps cluster from count ≤ 2 * count.
Proof.
  revert from. induction count as [| count IH]; intros from; simpl; [lia |].
  specialize (IH (S from)). destruct (cluster from); lia.
Qed.

Lemma goes_on_not_ends call o :
  goes_on cluster expected_statuses call = true →
  ¬ ends cluster expected_statuses call o.
Proof.
  unfold goes_on, ends. destruct (cluster call) as [status | phase].
  - intros Hs%bool_decide_eq_true [Hn _]. done.
  - intros Hn [He _]. rewrite He in Hn. discriminate.
Qed.

(** Every run of the loop: either all [retries] calls let it go on and
    it raises at the end, or some call [j] ends it and the calls before
    [j] let it go on. *)
Lemma poll_spec retries st :
  let out := poll cluster expected_statuses retries st in
  (out.1 = Raises PodNeverReachedExpectedStatusError
   ∧ (∀ i, i < retries → goes_on cluster expected_statuses (polls st + i) = true)
   ∧ out.2 = mk_clock (polls st + retries)
               (slept st + sleeps cluster (polls st) retries))
  ∨ (∃ j, j < retries
          ∧ (∀ i, i < j → goes_on cluster expected_statuses (polls st + i) = true)
          ∧ ends cluster expected_statuses (polls st + j) out.1
          ∧ out.2 = mk_clock (polls st + j + 1)
                      (slept st + sleeps cluster (polls st) j)).
Proof.
  revert st. induction retries as [| retries IH]; intros [c z]; simpl.
  { left. split; [done |]. split; [lia |]. f_equal; lia. }
  assert (∀ z', let out := poll cluster expected_statuses retries (mk_clock (S c) z') in
            goes_on cluster expected_statuses c = true →
            z' = z + match cluster c with ApiException _ => 2 | Pod _ => 1 end →
            (out.1 = Raises PodNeverReachedExpectedStatusError
             ∧ (∀ i, i < S retries →
                     goes_on cluster expected_statuses (c + i) = true)
             ∧ out.2 = mk_clock (c + S retries)
                         (z + (match cluster c with
                               | ApiException _ => 2 | Pod _ => 1 end
                               + sleeps cluster (S c) retries)))
            ∨ (∃ j, j < S retries
                    ∧ (∀ i, i < j →
                            goes_on cluster expected_statuses (c + i) = true)
                    ∧ ends cluster expected_statuses (c + j) out.1
                    ∧ out.2 = mk_clock (c + j + 1)
                                (z + sleeps cluster c j))) as Hnext.
  { intros z' out Hgo Hz. subst out.
    destruct (IH (mk_clock (S c) z')) as [(Ho & Hall & Hst) | (j & Hj & Hall & He & Hst)];
      simpl in *.
    - left. split; [done |]. split.
      + intros [| i] Hi; [by rewrite Nat.add_0_r |].
        replace (c + S i) with (S (c + i)) by lia. apply Hall. lia.
      + rewrite Hst, Hz. f_equal; lia.
    - right. exists (S j). split; [lia |]. split; [| split].
      + intros [| i] Hi; [by rewrite Nat.add_0_r |].
        replace (c + S i) with (S (c + i)) by lia. apply Hall. lia.
      + by replace (c + S j) with (S (c + j)) by lia.
      + rewrite Hst, Hz. simpl. f_equal; lia. }
  destruct (cluster c) as [status | phase] eqn:Hc.
  - destruct (bool_decide (status ≠ Some 404%Z)) eqn:Hs; simpl.
    + apply bool_decide_eq_true in Hs. right. exists 0.
      unfold ends. rewrite !Nat.add_0_r, Hc. simpl.
      split; [lia |]. split; [lia |]. split; [done |]. f_equal; lia.
    + apply bool_decide_eq_false in Hs. apply (Hnext (z + 2)); [| done].
      unfold goes_on. rewrite Hc. apply bool_decide_eq_true. by apply dec_stable.
  - destruct (expected expected_statuses phase) eqn:He; simpl.
    + right. exists 0. unfold ends. rewrite !Nat.add_0_r, Hc. simpl.
      split; [lia |]. split; [lia |]. split; [done |]. f_equal; lia.
    + apply (Hnext (z + 1)); [| done]. unfold goes_on. by rewrite Hc, He.
Qed.

(** Up to call [j] either every call lets the loop go on, or there is a
    first call that does not. *)
Lemma first_stop j :
  (∀ i, i < j → goes_on cluster expected_statuses i = true)
  ∨ (∃ j0, j0 < j ∧ goes_on cluster expected_statuses j0 = false
           ∧ ∀ i, i < j0 → goes_on cluster expected_statuses i = true).
Proof.
  induction j as [| j [Hall | (j0 & Hj0 & Hstop & Hbefore)]].
  - left. lia.
  - destruct (goes_on cluster expected_statuses j) eqn:Hj.
    + left. intros i Hi. destruct (decide (i = j)) as [-> | ?]; [done |].
      apply Hall. lia.
    + right. exists j. split; [lia | done].
  - right. exists j0. split; [lia | done].
Qed.

(** X16.  The function calls the cluster at most [max_retries] times,
    and sleeps at most two seconds per call and at least one second per
    call but the last.  With [max_retries] [None] it raises the
    [TypeError] of [None - 1] before the first call, and with an integer
    below 1 it raises [PodNeverReachedExpectedStatusError] before the
    first call. *)
Theorem wait_bounds max_retries :
  let out := wait_for_pod_status cluster expected_statuses max_retries in
  polls out.2 ≤ Z.to_nat (default 0%Z max_retries)
  ∧ slept out.2 ≤ 2 * polls out.2
  ∧ polls out.2 ≤ slept out.2 + 1
  ∧ (max_retries = None → out = (Raises NoneMinusInt, mk_clock 0 0))
  ∧ (∀ n, max_retries = Some n → (n ≤ 0)%Z →
          out = (Raises PodNeverReachedExpectedStatusError, mk_clock 0 0)).
Proof.
  intros out. subst out. destruct max_retries as [n |]; simpl.
  2:{ repeat split; try lia; try done. }
  pose proof (poll_spec (Z.to_nat n) (mk_clock 0 0)) as Hspec. simpl in Hspec.
  assert (∀ j, j ≤ sleeps cluster 0 j ≤ 2 * j) as Hsl
    by (intros j; apply sleeps_bounds).
  split; [| split; [| split; [| split; [done |]]]].
  - destruct Hspec as [(_ & _ & ->) | (j & Hj & _ & _ & ->)]; simpl; lia.
  - destruct Hspec as [(_ & _ & ->) | (j & Hj & _ & _ & ->)]; simpl;
      [specialize (Hsl (Z.to_nat n)) | specialize (Hsl j)]; lia.
  - destruct Hspec as [(_ & _ & ->) | (j & Hj & _ & _ & ->)]; simpl;
      [specialize (Hsl (Z.to_nat n)) | specialize (Hsl j)]; lia.
  - intros n' [= <-] Hn. by replace (Z.to_nat n) with 0 by lia.
Qed.

(** X17.  The wait stops at the first call that does not let the loop go
    on: when call [j], one of the first [max_retries], finds the pod in
    an expected phase and every call before it met a 404 or a phase that
    is not expected, the function returns after [j + 1] calls; when call
    [j] meets an [ApiException] other than a 404 instead, the function
    raises it.  It has then slept two seconds for each 404 and one for
    each phase that was not expected. *)
Theorem wait_ends_at n j o :
  j < Z.to_nat n →
  (∀ i, i < j → goes_on cluster expected_statuses i = true) →
  ends cluster expected_statuses j o →
  wait_for_pod_status cluster expected_statuses (Some n)
  = (o, mk_clock (S j) (sleeps cluster 0 j)).
Proof.
  intros Hj Hall He. unfold wait_for_pod_status.
  pose proof (poll_spec (Z.to_nat n) (mk_clock 0 0)) as Hspec. simpl in Hspec.
  destruct (poll cluster expected_statuses (Z.to_nat n) (mk_clock 0 0)) as [o' st].
  simpl in Hspec.
  destruct Hspec as [(_ & Hgo & _) | (j' & Hj' & Hgo & He' & ->)].
  { by destruct (goes_on_not_ends j o (Hgo j Hj)). }
  destruct (Nat.lt_trichotomy j j') as [Hlt | [<- | Hgt]].
  - by destruct (goes_on_not_ends j o (Hgo j Hlt)).
  - f_equal; [| f_equal; lia]. unfold ends in He, He'.
    destruct (cluster j); destruct He as [_ ->], He' as [_ ->]; done.
  - by destruct (goes_on_not_ends j' o' (Hall j' Hgt)).
Qed.

(** X18.  When each of the first [max_retries] calls meets a 404 or a
    phase that is not expected, the function makes exactly these calls
    and raises [PodNeverReachedExpectedStatusError]. *)
Theorem wait_never_reached n :
  (∀ i, i < Z.to_nat n → goes_on cluster expected_statuses i = true) →
  wait_for_pod_status cluster expected_statuses (Some n)
  = (Raises PodNeverReachedExpectedStatusError,
     mk_clock (Z.to_nat n) (sleeps cluster 0 (Z.to_nat n))).
Proof.
  intros Hall. unfold wait_for_pod_status.
  pose proof (poll_spec (Z.to_nat n) (mk_clock 0 0)) as Hspec. simpl in Hspec.
  destruct (poll cluster expected_statuses (Z.to_nat n) (mk_clock 0 0)) as [o st].
  simpl in Hspec.
  destruct Hspec as [(-> & _ & ->) | (j & Hj & _ & He & _)]; [done |].
  by destruct (goes_on_not_ends j o (Hall j Hj)).
Qed.

(** X19.  The function returns normally exactly when, within the first
    [max_retries] calls, some call finds the pod in an expected phase
    and no earlier call met an [ApiException] other than a 404. *)
Theorem wait_returns_iff n :
  (wait_for_pod_status cluster expected_statuses (Some n)).1 = Returns
  ↔ ∃ j p, j < Z.to_nat n
           ∧ cluster j = Pod (Some p) ∧ p ∈ expected_statuses
           ∧ ∀ i status, i < j → cluster i = ApiException status →
                         status = Some 404%Z.
Proof.
  unfold wait_for_pod_status.
  pose proof (poll_spec (Z.to_nat n) (mk_clock 0 0)) as Hspec. simpl in Hspec.
  destruct (poll cluster expected_statuses (Z.to_nat n) (mk_clock 0 0)) as [o st].
  simpl in *. split.
  - intros ->. destruct Hspec as [(? & _) | (j & Hj & Hgo & He & _)]; [done |].
    unfold ends in He. destruct (cluster j) as [status | [p |]] eqn:Hc;
      [by destruct He | | by destruct He].
    exists j, p. split; [done |]. split; [done |]. split.
    + destruct He as [He _]. by apply bool_decide_eq_true in He.
    + intros i status Hi Hci. specialize (Hgo i Hi). unfold goes_on in Hgo.
      rewrite Hci in Hgo. by apply bool_decide_eq_true in Hgo.
  - intros (j & p & Hj & Hc & Hp & Hbefore).
    assert (∃ j0, j0 ≤ j
                  ∧ (∀ i, i < j0 → goes_on cluster expected_statuses i = true)
                  ∧ ends cluster expected_statuses j0 Returns)
      as (j0 & Hj0 & Hgo0 & He0).
    { destruct (first_stop j) as [Hall | (j0 & Hlt & Hstop & Hall)].
      - exists j. split; [done |]. split; [done |]. unfold ends. rewrite Hc.
        split; [| done]. simpl. by apply bool_decide_eq_true.
      - exists j0. split; [lia |]. split; [done |].
        unfold goes_on in Hstop. unfold ends.
        destruct (cluster j0) as [status | phase] eqn:Hc0.
        + rewrite (Hbefore j0 status Hlt Hc0) in Hstop.
          by rewrite bool_decide_eq_true_2 in Hstop.
        + split; [| done]. by apply negb_false_iff in Hstop. }
    destruct Hspec as [(_ & Hgo & _) | (j' & Hj' & Hgo & He & _)].
    + by destruct (goes_on_not_ends j0 Returns (Hgo j0 ltac:(lia))).
    + destruct (Nat.lt_trichotomy j0 j') as [Hlt | [<- | Hgt]].
      * by destruct (goes_on_not_ends j0 Returns (Hgo j0 Hlt)).
      * unfold ends in He, He0. destruct (cluster j0);
          destruct He as [_ ->], He0 as [_ ?]; done.
      * by destruct (goes_on_not_ends j' o (Hgo0 j' Hgt)).
Qed.

End WaitProps.

Lemma wait_ends_at_witness :
  wait_for_pod_status starting_cluster ["Running"; "Succeeded"] (Some 100%Z)
  = (Returns, mk_clock 4 4)
  ∧ wait_for_pod_status (λ _, ApiException (Some 403%Z)) ["Running"] (Some 100%Z)
    = (Raises (ApiError (Some 403%Z)), mk_clock 1 0).
Proof.
  split.
  - apply (wait_ends_at starting_cluster ["Running"; "Succeeded"] 100 3 Returns).
    + vm_compute. lia.
    + intros [| [| [| i]]] Hi; try reflexivity. lia.
    + split; reflexivity.
  - apply (wait_ends_at (λ _, ApiException (Some 403%Z)) ["Running"] 100 0
             (Raises (ApiError (Some 403%Z)))).
    + vm_compute. lia.
    + intros i Hi. lia.
    + split; [discriminate | reflexivity].
Defined.

Lemma wait_never_reached_witness :
  wait_for_pod_status starting_cluster ["Running"; "Succeeded"] (Some 3%Z)
  = (Raises PodNeverReachedExpectedStatusError, mk_clock 3 4).
Proof.
  apply (wait_never_reached starting_cluster ["Running"; "Succeeded"] 3).
  intros [| [| [| i]]] Hi; try reflexivity. simpl in Hi. lia.
Defined.

End Pods.

(** ** Environment variables of a pipeline *)

Module EnvVars.

(** The columns of [models.Project] and [models.Pipeline] that the
    function reads. *)
Record Project : Type := mk_project {
  project_uuid : string;
  project_env_variables : gmap string string
}.

Record Pipeline : Type := mk_pipeline {
  pipeline_project_uuid : string;
  pipeline_uuid : string;
  pipeline_env_variables : gmap string string
}.

(** The exceptions of [Query.one]. *)
Inductive orm_exn : Type := NoResultFound | MultipleResultsFound.

(** [Query.one]: the only row of the result, or an exception. *)
Definition one {A : Type} (rows : list A) : A + orm_exn :=
  match rows with
  | [] => inr NoResultFound
  | [row] => inl row
  | _ => inr MultipleResultsFound
  end.

(** [get_proj_pip_env_variables], lines 95-119.  [{**a, **b}] has the
    keys of both, with the value of [b] where both have one. *)
Definition get_proj_pip_env_variables (projects : list Project)
    (pipelines : list Pipeline) (proj_uuid pipe_uuid : string)
    : gmap string string + orm_exn :=
  match one (filter (λ p, project_uuid p = proj_uuid) projects) with
  | inr e => inr e
  | inl project =>
      match one (filter (λ p, pipeline_project_uuid p = proj_uuid
                              ∧ pipeline_uuid p = pipe_uuid) pipelines) with
      | inr e => inr e
      | inl pipeline =>
          inl (pipeline_env_variables pipeline ∪ project_env_variables project)
      end
  end.

(** X20.  When the project and the pipeline are each found once, the
    function returns the variables of both, a variable of the pipeline
    taking the place of a variable of the project with the same name;
    and it returns variables in no other case: a project or pipeline
    that is missing, or found more than once, makes it raise. *)
Theorem env_variables_merge projects pipelines proj_uuid pipe_uuid :
  let found_projects := filter (λ p, project_uuid p = proj_uuid) projects in
  let found_pipelines :=
    filter (λ p, pipeline_project_uuid p = proj_uuid
                 ∧ pipeline_uuid p = pipe_uuid) pipelines in
  (∀ project pipeline,
     found_projects = [project] → found_pipelines = [pipeline] →
     ∃ env, get_proj_pip_env_variables projects pipelines proj_uuid pipe_uuid
            = inl env
            ∧ dom env = dom (pipeline_env_variables pipeline)
                          ∪ dom (project_env_variables project)
            ∧ ∀ name, env !! name
                      = match pipeline_env_variables pipeline !! name with
                        | Some v => Some v
                        | None => project_env_variables project !! name
                        end)
  ∧ (∀ env, get_proj_pip_env_variables projects pipelines proj_uuid pipe_uuid
            = inl env →
            length found_projects = 1 ∧ length found_pipelines = 1)
  ∧ (found_projects = [] →
     get_proj_pip_env_variables projects pipelines proj_uuid pipe_uuid
     = inr NoResultFound).
Proof.
  intros found_projects found_pipelines.
  unfold get_proj_pip_env_variables.
  fold found_projects. fold found_pipelines.
  split; [| split].
  - intros project pipeline -> ->; simpl. eexists. split; [done |].
    split; [by rewrite dom_union_L |].
    intros name. rewrite lookup_union.
    by destruct (pipeline_env_variables pipeline !! name),
         (project_env_variables project !! name).
  - intros env.
    destruct found_projects as [| project [| ? ?]]; simpl; try discriminate.
    destruct found_pipelines as [| pipeline [| ? ?]]; simpl; try discriminate.
    done.
  - by intros ->.
Qed.

Example env_variables_of_pipeline :
  get_proj_pip_env_variables
    [mk_project "p1" {[ "TOKEN" := "project"; "REGION" := "eu" ]};
     mk_project "p2" ∅]
    [mk_pipeline "p1" "a" {[ "TOKEN" := "pipeline" ]};
     mk_pipeline "p2" "a" {[ "TOKEN" := "other" ]}]
    "p1" "a"
  = inl {[ "TOKEN" := "pipeline"; "REGION" := "eu" ]}
  ∧ get_proj_pip_env_variables [] [mk_pipeline "p1" "a" ∅] "p1" "a"
    = inr NoResultFound.
Proof. split; reflexivity. Qed.

End EnvVars.
